(** * DeepResearcher front end: the optimistic chat-send reconciler

    A shallow embedding of the chat page component
    [frontend/src/app/project/[id]/paper/page.tsx] (the same code is used by
    the research page): the optimistic send handler, the response-detection
    effect, the 60 s watchdog, the timestamp formatter, the poll interval and
    the resizable split hook.

    Conventions.
    - A JavaScript string is its sequence of UTF-16 code units ([list N]).
    - A React callback or effect body is an [Act]: it reads the values of the
      render it closes over, updates state and refs, and may emit commands
      (network mutations, cache invalidations).
    - The component as a whole is a transition system over [Page], one
      transition per callback, timer or effect run. *)

From Stdlib Require Import List ZArith NArith QArith Bool Lia Lqa String Ascii.
From Stdlib Require Floats.
Import ListNotations.

Local Open Scope Z_scope.

(* ====================================================================== *)
(** ** JavaScript strings *)
(* ====================================================================== *)

Module Js.

(** A string value: UTF-16 code units. *)
Definition jsstring := list N.

(** A string literal of the source (ASCII only). *)
Definition lit (s : string) : jsstring :=
  map N_of_ascii (list_ascii_of_string s).

(** [a === b] on two strings. *)
Fixpoint eqb (a b : jsstring) : bool :=
  match a, b with
  | [], [] => true
  | x :: a', y :: b' => N.eqb x y && eqb a' b'
  | _, _ => false
  end.

(** ToBoolean on a string: only the empty string is falsy. *)
Definition truthy (s : jsstring) : bool :=
  match s with [] => false | _ :: _ => true end.

(** ToBoolean on [string | null]. *)
Definition truthy_opt (s : option jsstring) : bool :=
  match s with Some s' => truthy s' | None => false end.

(** [x === p] for [x : string] and [p : string | null]. *)
Definition eqb_opt (x : jsstring) (p : option jsstring) : bool :=
  match p with Some s => eqb x s | None => false end.

(** ECMAScript WhiteSpace and LineTerminator code points, the characters
    [String.prototype.trim] strips.  All of them lie in the BMP, so the
    test is exact on code units. *)
Definition isWhiteSpace (c : N) : bool :=
  ((c =? 0x0009) || (c =? 0x000A) || (c =? 0x000B) || (c =? 0x000C)
   || (c =? 0x000D) || (c =? 0x0020) || (c =? 0x00A0) || (c =? 0x1680)
   || ((0x2000 <=? c) && (c <=? 0x200A))
   || (c =? 0x2028) || (c =? 0x2029) || (c =? 0x202F) || (c =? 0x205F)
   || (c =? 0x3000) || (c =? 0xFEFF))%N.

Fixpoint dropWhile {A} (f : A -> bool) (l : list A) : list A :=
  match l with
  | [] => []
  | x :: l' => if f x then dropWhile f l' else l
  end.

(** The head of [l], if any, is not an [f]: nothing for [dropWhile] to
    remove. *)
Definition headRejected {A} (f : A -> bool) (l : list A) : Prop :=
  match l with [] => True | x :: _ => f x = false end.

Definition trimStart (s : jsstring) : jsstring := dropWhile isWhiteSpace s.

Definition trimEnd (s : jsstring) : jsstring :=
  rev (dropWhile isWhiteSpace (rev s)).

(** [s.trim()] *)
Definition trim (s : jsstring) : jsstring := trimEnd (trimStart s).

(** [a[a.length - 1]] when [a.length > 0]. *)
Fixpoint lastOf {A} (l : list A) : option A :=
  match l with
  | [] => None
  | [x] => Some x
  | _ :: l' => lastOf l'
  end.

End Js.

Abbreviation jsstring := Js.jsstring.

(* ====================================================================== *)
(** ** Data model *)
(* ====================================================================== *)

(** [Message] of [@/lib/api-v3], as the page reads it. *)
Record Message := mkMessage {
  agent : jsstring;
  content : jsstring;
  timestamp : jsstring
}.

(** The [useState] cells and the ref the reconciler works on. *)
Record State := mkState {
  inputMessage : jsstring;
  isWaitingForResponse : bool;
  pendingMessage : option jsstring;
  messageCountWhenSentRef : Z
}.

(** Values at mount: [useState('')], [useState(false)], [useState(null)],
    [useRef(-1)]. *)
Definition initialState : State :=
  {| inputMessage := [];
     isWaitingForResponse := false;
     pendingMessage := None;
     messageCountWhenSentRef := -1 |}.

(** What a callback asks of its collaborators. *)
Inductive Cmd :=
| Mutate (content : jsstring)     (* sendMessage.mutate(content, ...) *)
| InvalidateQueries.              (* queryClient.invalidateQueries(...) *)

(* ---------------------------------------------------------------------- *)
(** *** Callback bodies *)

Definition Act := State -> State * list Cmd.

Definition skip : Act := fun s => (s, []).

Definition andThen (a b : Act) : Act :=
  fun s => let (s1, c1) := a s in let (s2, c2) := b s1 in (s2, c1 ++ c2).

Notation "a >> b" := (andThen a b) (at level 61, left associativity).

Definition ifThen (c : bool) (a : Act) : Act := if c then a else skip.

Definition emit (c : Cmd) : Act := fun s => (s, [c]).

Definition setInputMessage (v : jsstring) : Act := fun s =>
  ({| inputMessage := v;
      isWaitingForResponse := isWaitingForResponse s;
      pendingMessage := pendingMessage s;
      messageCountWhenSentRef := messageCountWhenSentRef s |}, []).

Definition setIsWaitingForResponse (v : bool) : Act := fun s =>
  ({| inputMessage := inputMessage s;
      isWaitingForResponse := v;
      pendingMessage := pendingMessage s;
      messageCountWhenSentRef := messageCountWhenSentRef s |}, []).

Definition setPendingMessage (v : option jsstring) : Act := fun s =>
  ({| inputMessage := inputMessage s;
      isWaitingForResponse := isWaitingForResponse s;
      pendingMessage := v;
      messageCountWhenSentRef := messageCountWhenSentRef s |}, []).

(** [messageCountWhenSentRef.current = v] *)
Definition setMessageCountWhenSent (v : Z) : Act := fun s =>
  ({| inputMessage := inputMessage s;
      isWaitingForResponse := isWaitingForResponse s;
      pendingMessage := pendingMessage s;
      messageCountWhenSentRef := v |}, []).

(** Reading [messageCountWhenSentRef.current]: a ref is read at the moment
    the statement runs, not at render. *)
Definition withMessageCountWhenSent (k : Z -> Act) : Act :=
  fun s => k (messageCountWhenSentRef s) s.

Definition user : jsstring := Js.lit "user".

(* ---------------------------------------------------------------------- *)
(** *** The reconciler's operations *)

(** The response-detection effect ([useEffect] with dependencies
    [messages, isWaitingForResponse, pendingMessage]).  [r] is the render
    the effect closes over. *)
Definition onLogUpdated (messages : list Message) : Act := fun r =>
  match Js.lastOf messages with
  | None => skip r
  | Some lastMsg =>
      (ifThen (Js.truthy_opt (pendingMessage r)
               && Js.eqb (agent lastMsg) user
               && Js.eqb_opt (content lastMsg) (pendingMessage r))
         (setPendingMessage None)
       >>
       withMessageCountWhenSent (fun count =>
         ifThen (isWaitingForResponse r
                 && negb (Js.eqb (agent lastMsg) user)
                 && (Z.of_nat (List.length messages) >? count))
           (setIsWaitingForResponse false
            >> setPendingMessage None
            >> setMessageCountWhenSent (-1)))) r
  end.

(** The watchdog's callback: [() => setIsWaitingForResponse(false)]. *)
Definition onTimeout : Act := setIsWaitingForResponse false.

(** The [onError] callback handed to [sendMessage.mutate]. *)
Definition onError : Act :=
  setIsWaitingForResponse false
  >> setPendingMessage None
  >> setMessageCountWhenSent (-1).

(** The [onSuccess] callback handed to [sendMessage.mutate]. *)
Definition onSuccess : Act := emit InvalidateQueries.

(** [handleSendMessage]; [messages] is the log of the current render. *)
Definition handleSendMessage (messages : list Message) : Act := fun r =>
  if negb (Js.truthy (Js.trim (inputMessage r))) || isWaitingForResponse r
  then skip r
  else
    let messageToSend := Js.trim (inputMessage r) in
    (setMessageCountWhenSent (Z.of_nat (List.length messages))
     >> setPendingMessage (Some messageToSend)
     >> setIsWaitingForResponse true
     >> setInputMessage []
     >> emit (Mutate messageToSend)) r.

(** [refetchInterval] of the message-log query. *)
Definition refetchInterval (isWaiting : bool) : Z :=
  if isWaiting then 1000 else 3000.

(* ====================================================================== *)
(** ** The page as a transition system *)
(* ====================================================================== *)

(** Delay handed to [setTimeout] by the watchdog effect, in ms. *)
Definition WATCHDOG_MS : Z := 60000.

(** The component between two events: its state, the log of the last
    successful poll ([processState?.messages || []]) and the watchdog timer
    (the instant it is due at, when one is set). *)
Record Page := mkPage {
  state : State;
  messages : list Message;
  waitTimer : option Z
}.

Definition initialPage : Page :=
  {| state := initialState; messages := []; waitTimer := None |}.

(** The watchdog effect ([useEffect] with dependency
    [isWaitingForResponse]): when the flag differs from the previous
    render's, the previous run is cleaned up ([clearTimeout]) and the body
    runs again, setting a timer only if the flag is set. *)
Definition watchdogEffect (now : Z) (before after : bool)
    (timer : option Z) : option Z :=
  if Bool.eqb before after then timer
  else if after then Some (now + WATCHDOG_MS) else None.

Inductive Event :=
| Typed (text : jsstring)            (* onChange / quick-action buttons *)
| Submit                             (* the form's onSubmit *)
| LogUpdated (log : list Message)    (* a poll delivered [log] *)
| SendFailed                         (* the mutation rejected *)
| SendSucceeded                      (* the mutation resolved *)
| WatchdogFired.                     (* the setTimeout callback ran *)

(** Re-render after a callback that left the state [fst res] and the timer
    [timer], with the log [log] to render.  The watchdog effect sees the
    flag the callback left; the response-detection effect runs on the
    rendered log (its dependencies are the log, the waiting flag and the
    pending message; run with unchanged dependencies it changes nothing);
    the watchdog effect then sees the flag that run leaves.  A second run
    of the detection effect changes nothing, so one run is the whole
    cascade. *)
Definition rerender (now : Z) (p : Page) (log : list Message)
    (timer : option Z) (res : State * list Cmd) : Page * list Cmd :=
  let afterCallback := fst res in
  let timer1 := watchdogEffect now
                  (isWaitingForResponse (state p))
                  (isWaitingForResponse afterCallback) timer in
  let detected := onLogUpdated log afterCallback in
  ({| state := fst detected;
      messages := log;
      waitTimer := watchdogEffect now
                     (isWaitingForResponse afterCallback)
                     (isWaitingForResponse (fst detected)) timer1 |},
   snd res ++ snd detected).

(** One event at instant [now] (ms).  [None]: the event cannot happen in
    [p] (a timer fires only if set and due; once fired it is spent). *)
Definition step (now : Z) (ev : Event) (p : Page) : option (Page * list Cmd) :=
  match ev with
  | Typed text =>
      Some (rerender now p (messages p) (waitTimer p)
              (setInputMessage text (state p)))
  | Submit =>
      Some (rerender now p (messages p) (waitTimer p)
              (handleSendMessage (messages p) (state p)))
  | LogUpdated log =>
      Some (rerender now p log (waitTimer p) (skip (state p)))
  | SendFailed =>
      Some (rerender now p (messages p) (waitTimer p) (onError (state p)))
  | SendSucceeded =>
      Some (rerender now p (messages p) (waitTimer p) (onSuccess (state p)))
  | WatchdogFired =>
      match waitTimer p with
      | Some due =>
          if due <=? now
          then Some (rerender now p (messages p) None (onTimeout (state p)))
          else None
      | None => None
      end
  end.

(** Pages the component can be in. *)
Inductive reachable : Page -> Prop :=
| reach_init : reachable initialPage
| reach_step : forall p now ev p' cmds,
    reachable p -> step now ev p = Some (p', cmds) -> reachable p'.

(** Running a schedule of timed events from a page. *)
Fixpoint run (evs : list (Z * Event)) (p : Page) : option Page :=
  match evs with
  | [] => Some p
  | (now, ev) :: evs' =>
      match step now ev p with
      | Some (p', _) => run evs' p'
      | None => None
      end
  end.

(** [n] runs of the response-detection effect on the same log. *)
Fixpoint onLogUpdated_times (n : nat) (log : list Message) (st : State) : State :=
  match n with
  | O => st
  | S n' => onLogUpdated_times n' log (fst (onLogUpdated log st))
  end.

(* ====================================================================== *)
(** ** Timestamp formatting *)
(* ====================================================================== *)

Module Timestamp.

(** Outcome of evaluating an expression: a value or a thrown exception. *)
Inductive Completion (A : Type) :=
| Normal (v : A)
| Throw.
Arguments Normal {A} v.
Arguments Throw {A}.

Definition bind {A B} (c : Completion A) (k : A -> Completion B)
  : Completion B :=
  match c with Normal v => k v | Throw => Throw end.

(** [try { body } catch { handler }] *)
Definition tryCatch {A} (body : Completion A) (handler : Completion A)
  : Completion A :=
  match body with Normal v => Normal v | Throw => handler end.

(** The text [Date.prototype.toLocaleTimeString] returns for a date whose
    time value is NaN (ECMA-262, ECMA-402). *)
Definition invalidDate : jsstring := Js.lit "Invalid Date".

Section Host.

(** The host's [Date.parse]: the time value in ms since the epoch, or
    [None] for NaN (a string the host does not recognise). *)
Variable DateParse : jsstring -> option Z.

(** The host's rendering of a finite time value in its default locale
    and time zone with [{hour: '2-digit', minute: '2-digit'}]. *)
Variable formatTime : Z -> jsstring.

(** [new Date(s)] on a string: never throws, the date holds
    [Date.parse(s)]. *)
Definition newDate (s : jsstring) : Completion (option Z) :=
  Normal (DateParse s).

(** [d.toLocaleTimeString([], {hour: '2-digit', minute: '2-digit'})]:
    valid locale list and options, so no RangeError; an invalid date
    yields the text "Invalid Date". *)
Definition toLocaleTimeString (tv : option Z) : Completion jsstring :=
  match tv with
  | None => Normal invalidDate
  | Some t => Normal (formatTime t)
  end.

Definition formatTimestamp (timestamp : jsstring) : Completion jsstring :=
  tryCatch
    (bind (newDate timestamp) toLocaleTimeString)
    (Normal []).

End Host.

(** A reference host, used to run the formatter: it recognises the
    ECMAScript date-time format in the form [YYYY-MM-DDTHH:mm:ssZ] only
    and renders times in UTC on a 24-hour clock. *)
Module RefHost.

Definition digit (c : N) : option Z :=
  if ((48 <=? c) && (c <=? 57))%N then Some (Z.of_N c - 48) else None.

Fixpoint number (acc : Z) (cs : list N) : option Z :=
  match cs with
  | [] => Some acc
  | c :: cs' =>
      match digit c with
      | Some d => number (10 * acc + d) cs'
      | None => None
      end
  end.

Definition field (s : jsstring) (off len : nat) : option Z :=
  number 0 (firstn len (skipn off s)).

Definition sepAt (s : jsstring) (i : nat) (c : N) : bool :=
  N.eqb (nth i s 0%N) c.

Definition isLeap (y : Z) : bool :=
  ((y mod 4 =? 0) && negb (y mod 100 =? 0)) || (y mod 400 =? 0).

Definition daysInMonth (y m : Z) : Z :=
  if m =? 2 then (if isLeap y then 29 else 28)
  else if (m =? 4) || (m =? 6) || (m =? 9) || (m =? 11) then 30
  else 31.

(** Days between 1970-01-01 and the civil date [y-m-d]. *)
Definition daysFromCivil (y m d : Z) : Z :=
  let y' := if m <=? 2 then y - 1 else y in
  let era := y' / 400 in
  let yoe := y' - era * 400 in
  let doy := (153 * (m + (if 2 <? m then -3 else 9)) + 2) / 5 + d - 1 in
  let doe := yoe * 365 + yoe / 4 - yoe / 100 + doy in
  era * 146097 + doe - 719468.

Definition DateParse (s : jsstring) : option Z :=
  if (Nat.eqb (List.length s) 20)
     && sepAt s 4 45 && sepAt s 7 45 && sepAt s 10 84
     && sepAt s 13 58 && sepAt s 16 58 && sepAt s 19 90
  then
    match field s 0 4, field s 5 2, field s 8 2,
          field s 11 2, field s 14 2, field s 17 2 with
    | Some y, Some m, Some d, Some h, Some mi, Some sec =>
        if (1 <=? m) && (m <=? 12) && (1 <=? d) && (d <=? daysInMonth y m)
           && (h <=? 23) && (mi <=? 59) && (sec <=? 59)
        then Some (daysFromCivil y m d * 86400000
                   + h * 3600000 + mi * 60000 + sec * 1000)
        else None
    | _, _, _, _, _, _ => None
    end
  else None.

Definition twoDigits (n : Z) : jsstring :=
  [Z.to_N (48 + n / 10); Z.to_N (48 + n mod 10)].

Definition formatTime (tv : Z) : jsstring :=
  let ms := tv mod 86400000 in
  twoDigits (ms / 3600000) ++ [58%N] ++ twoDigits ((ms / 60000) mod 60).

End RefHost.

End Timestamp.

(* ====================================================================== *)
(** ** The resizable split *)
(* ====================================================================== *)

(** The clamp of the split hook in two readings.  [Split64] is the code's
    own arithmetic, IEEE 754 binary64 (the kernel's primitive floats), and
    is what the statements about the ratio's bounds are made on.  [Split]
    reads the same formula in exact rational arithmetic, for a container
    of positive width; it serves only the order of the ratio in the
    pointer's position, which correct rounding preserves. *)
Module Split64.

Import PrimFloat FloatClass.
Local Open Scope float_scope.

Definition MIN_PANEL_WIDTH : float := 320.

(** The fields of [getBoundingClientRect()] the hook reads. *)
Record DOMRect := mkRect { left : float; width : float }.

(** [Math.max(a, b)]: NaN if either is NaN, else the larger, [+0] counting
    as larger than [-0]. *)
Definition Math_max (a b : float) : float :=
  if is_nan a || is_nan b then nan
  else if a <? b then b
  else if b <? a then a
  else match classify a with NZero => b | _ => a end.

(** [Math.min(a, b)]: NaN if either is NaN, else the smaller, [-0] counting
    as smaller than [+0]. *)
Definition Math_min (a b : float) : float :=
  if is_nan a || is_nan b then nan
  else if a <? b then a
  else if b <? a then b
  else match classify a with PZero => b | _ => a end.

(** [handleMouseMove] of [useResizableSplit]: the ratio handed to
    [setSplitRatio], or the current one when the container ref is not
    attached (early return). *)
Definition handleMouseMove (containerRef : option DOMRect) (clientX : float)
    (splitRatio : float) : float :=
  match containerRef with
  | None => splitRatio
  | Some containerRect =>
      let containerWidth := width containerRect in
      let mouseX := clientX - left containerRect in
      let newRatio := 1 - mouseX / containerWidth in
      let minRatio := MIN_PANEL_WIDTH / containerWidth in
      let maxRatio := 1 - MIN_PANEL_WIDTH / containerWidth in
      Math_max minRatio (Math_min maxRatio newRatio)
  end.

(** The three local values of [handleMouseMove], for the statements. *)
Definition minRatio (containerWidth : float) : float :=
  MIN_PANEL_WIDTH / containerWidth.
Definition maxRatio (containerWidth : float) : float :=
  1 - MIN_PANEL_WIDTH / containerWidth.
Definition rawRatio (containerRect : DOMRect) (clientX : float) : float :=
  1 - (clientX - left containerRect) / width containerRect.

(** The part of the container's width a ratio stands for.  How many pixels
    a panel really gets is decided by the page's layout (percentage widths
    in a padded flex row, [minWidth: MIN_PANEL_WIDTH] on both panels), which
    is not modelled. *)
Definition share (ratio containerWidth : float) : float :=
  ratio * containerWidth.

(** [x <= y] as JavaScript evaluates it. *)
Definition le (x y : float) : Prop := (x <=? y) = true.

(** [x == y] on numbers as JavaScript evaluates it. *)
Definition numEq (x y : float) : Prop := (x =? y) = true.

(** [x] is not NaN. *)
Definition isNumber (x : float) : Prop := is_nan x = false.

(** [check] holds of the [n] widths [w], [w + step], [w + 2 * step], ... *)
Fixpoint forWidths (check : float -> bool) (n : nat) (w step : float) : bool :=
  match n with
  | O => true
  | S n' => check w && forWidths check n' (w + step) step
  end.

End Split64.

Module Split.

Local Open Scope Q_scope.

Definition MIN_PANEL_WIDTH : Q := 320.

(** The fields of [getBoundingClientRect()] the hook reads. *)
Record DOMRect := mkRect { left : Q; width : Q }.

Definition Math_max (a b : Q) : Q := if Qle_bool a b then b else a.
Definition Math_min (a b : Q) : Q := if Qle_bool a b then a else b.

(** [handleMouseMove] of [useResizableSplit], read in exact arithmetic. *)
Definition handleMouseMove (containerRef : option DOMRect) (clientX : Q)
    (splitRatio : Q) : Q :=
  match containerRef with
  | None => splitRatio
  | Some containerRect =>
      let containerWidth := width containerRect in
      let mouseX := clientX - left containerRect in
      let newRatio := 1 - mouseX / containerWidth in
      let minRatio := MIN_PANEL_WIDTH / containerWidth in
      let maxRatio := 1 - MIN_PANEL_WIDTH / containerWidth in
      Math_max minRatio (Math_min maxRatio newRatio)
  end.

End Split.

(* ====================================================================== *)
(** ** Notions used in the statements *)
(* ====================================================================== *)

(** The reconciliation state of the specification:
    [{ isWaiting, pending, sentAtCount }]. *)
Definition reconciliation (s : State) : bool * option jsstring * Z :=
  (isWaitingForResponse s, pendingMessage s, messageCountWhenSentRef s).

(** Its value when no send is outstanding (the value at mount). *)
Definition idle : bool * option jsstring * Z := (false, None, -1).

(** A pending message is a non-empty, already trimmed text. *)
Definition pendingTrimmed (s : State) : Prop :=
  forall m, pendingMessage s = Some m -> m <> [] /\ Js.trim m = m.

(** The watchdog timer is set exactly while the page is waiting. *)
Definition timerTracksWaiting (p : Page) : Prop :=
  isWaitingForResponse (state p)
  = match waitTimer p with Some _ => true | None => false end.

Definition isSubmit (ev : Event) : bool :=
  match ev with Submit => true | _ => false end.

(** The log ends with the user's own message [text]. *)
Definition echoes (log : list Message) (text : jsstring) : bool :=
  match Js.lastOf log with
  | Some lastMsg => Js.eqb (agent lastMsg) user && Js.eqb (content lastMsg) text
  | None => false
  end.

(** The response-detection effect has nothing left to do on the page's own
    log. *)
Definition settled (p : Page) : Prop :=
  onLogUpdated (messages p) (state p) = (state p, []).

(** What one run of the response-detection effect amounts to, branch by
    branch: [echo] is the guard of the first [if], [resp] of the second. *)
Definition echoGuard (lastMsg : Message) (r : State) : bool :=
  Js.truthy_opt (pendingMessage r)
  && Js.eqb (agent lastMsg) user
  && Js.eqb_opt (content lastMsg) (pendingMessage r).

Definition responseGuard (log : list Message) (lastMsg : Message)
    (r : State) : bool :=
  isWaitingForResponse r
  && negb (Js.eqb (agent lastMsg) user)
  && (Z.of_nat (List.length log) >? messageCountWhenSentRef r).

(* ====================================================================== *)
(** ** The chat form: keyboard and submit button *)
(* ====================================================================== *)

(** [AuthStatus] of [@/lib/api-v3], the field the page reads. *)
Record AuthStatus := mkAuthStatus { authenticated : bool }.

(** [authStatus?.authenticated] used as a condition: [undefined] while the
    query has no data. *)
Definition isAuthenticated (authStatus : option AuthStatus) : bool :=
  match authStatus with
  | Some a => authenticated a
  | None => false
  end.

(** The fields of the keyboard event the textarea's handler reads. *)
Record KeyEvent := mkKeyEvent {
  key : jsstring;
  shiftKey : bool;
  ctrlKey : bool
}.

(** The textarea's [onKeyDown]. *)
Definition onKeyDown (e : KeyEvent) (authStatus : option AuthStatus)
    (messages : list Message) : Act := fun r =>
  if Js.eqb (key e) (Js.lit "Enter") && negb (shiftKey e) && negb (ctrlKey e)
  then
    if Js.truthy (Js.trim (inputMessage r))
       && negb (isWaitingForResponse r)
       && isAuthenticated authStatus
    then handleSendMessage messages r
    else skip r
  else skip r.

(** [disabled] of the submit button; [mutationPending] is
    [sendMessage.isPending]. *)
Definition submitDisabled (r : State) (mutationPending : bool)
    (authStatus : option AuthStatus) : bool :=
  negb (Js.truthy (Js.trim (inputMessage r)))
  || mutationPending
  || isWaitingForResponse r
  || negb (isAuthenticated authStatus).

(** [disabled] of the textarea. *)
Definition textareaDisabled (r : State) (authStatus : option AuthStatus) : bool :=
  isWaitingForResponse r || negb (isAuthenticated authStatus).

(* ====================================================================== *)
(** ** Artifact update notifications (research page) *)
(* ====================================================================== *)

Module Artifact.

(** An entry of [artifactUpdates]. *)
Record Update := mkUpdate { id : Z; phase : jsstring }.

(** The [artifactUpdates] state with the two refs the detection effect
    works on.  The counter is a JavaScript number that only ever grows by
    one per detected update; it is modelled as an integer. *)
Record Tracker := mkTracker {
  artifactUpdates : list Update;
  previousArtifactRef : option jsstring;
  updateIdRef : Z
}.

(** Values at mount: [useState([])], [useRef(null)], [useRef(0)]. *)
Definition initialTracker : Tracker :=
  {| artifactUpdates := []; previousArtifactRef := None; updateIdRef := 0 |}.

(** The detection effect ([useEffect] with dependencies
    [artifact, currentPhase]). *)
Definition detectUpdate (artifact currentPhase : jsstring) (t : Tracker)
  : Tracker :=
  match previousArtifactRef t with
  | None =>
      {| artifactUpdates := artifactUpdates t;
         previousArtifactRef := Some artifact;
         updateIdRef := updateIdRef t |}
  | Some previous =>
      if Js.truthy artifact && negb (Js.eqb artifact previous)
      then
        let next := updateIdRef t + 1 in
        {| artifactUpdates :=
             artifactUpdates t ++ [{| id := next; phase := currentPhase |}];
           previousArtifactRef := Some artifact;
           updateIdRef := next |}
      else t
  end.

(** What [resetProcess]'s [onSuccess] does to the tracker. *)
Definition onResetSuccess (t : Tracker) : Tracker :=
  {| artifactUpdates := [];
     previousArtifactRef := None;
     updateIdRef := updateIdRef t |}.

Inductive TrackerEvent :=
| Rendered (artifact currentPhase : jsstring)   (* the effect ran *)
| ResetDone.                                    (* the reset resolved *)

Definition trackerStep (ev : TrackerEvent) (t : Tracker) : Tracker :=
  match ev with
  | Rendered artifact currentPhase => detectUpdate artifact currentPhase t
  | ResetDone => onResetSuccess t
  end.

Definition trackerRun (evs : list TrackerEvent) (t : Tracker) : Tracker :=
  fold_left (fun acc ev => trackerStep ev acc) evs t.

(** [l.map((x, index) => f(index, x))] *)
Fixpoint mapi_from {A B} (f : nat -> A -> B) (start : nat) (l : list A)
  : list B :=
  match l with
  | [] => []
  | x :: l' => f start x :: mapi_from f (S start) l'
  end.

Definition mapi {A B} (f : nat -> A -> B) (l : list A) : list B :=
  mapi_from f 0 l.

(** The notification slot rendered under the message at [index]: the phase
    shown by [ArtifactUpdateNotification], if one is rendered there. *)
Definition notificationAt (messages : list Message)
    (updates : list Update) (index : nat) (message : Message)
  : option jsstring :=
  let isLastMessage :=
    Z.of_nat index =? Z.of_nat (List.length messages) - 1 in
  let isAIResponse := negb (Js.eqb (agent message) user) in
  if isLastMessage && isAIResponse && (0 <? Z.of_nat (List.length updates))
  then option_map phase (Js.lastOf updates)
  else None.

(** The notification slots of the whole message list. *)
Definition notifications (messages : list Message) (updates : list Update)
  : list (option jsstring) :=
  mapi (notificationAt messages updates) messages.

(** Number of notifications actually rendered. *)
Definition rendered (slots : list (option jsstring)) : nat :=
  List.length (filter (fun s => match s with Some _ => true | None => false end) slots).

(** Identifiers grow strictly along the list and stay within [lo, hi]. *)
Fixpoint increasingWithin (lo hi : Z) (l : list Update) : Prop :=
  match l with
  | [] => True
  | u :: l' => lo < id u /\ id u <= hi /\ increasingWithin (id u) hi l'
  end.

End Artifact.

(* ====================================================================== *)
(** ** Arrays of strings and [localStorage] *)
(* ====================================================================== *)

Module JsArray.

(** [s.split(sep)] for a one-character separator: never empty, the empty
    string splits into one empty piece. *)
Fixpoint split (sep : N) (s : jsstring) : list jsstring :=
  match s with
  | [] => [[]]
  | c :: s' =>
      if N.eqb c sep then [] :: split sep s'
      else match split sep s' with
           | piece :: rest => (c :: piece) :: rest
           | [] => [[c]]
           end
  end.

(** [a.join(sep)] *)
Fixpoint join (sep : jsstring) (a : list jsstring) : jsstring :=
  match a with
  | [] => []
  | [x] => x
  | x :: a' => x ++ sep ++ join sep a'
  end.

(** [a.includes(x)] on strings. *)
Definition includes (a : list jsstring) (x : jsstring) : bool :=
  existsb (Js.eqb x) a.

End JsArray.

(** The browser's [localStorage]: string keys to string values; the newest
    binding of a key is the one read. *)
Module LocalStorage.

Definition Storage := list (jsstring * jsstring).

Fixpoint getItem (k : jsstring) (s : Storage) : option jsstring :=
  match s with
  | [] => None
  | (k', v) :: s' => if Js.eqb k' k then Some v else getItem k s'
  end.

Definition setItem (k v : jsstring) (s : Storage) : Storage := (k, v) :: s.

End LocalStorage.

(* ====================================================================== *)
(** ** Locks: the sidebar tree and the pages *)
(* ====================================================================== *)

Module Sidebar.

Inductive ProcessId := research | literature_org | literature_search | paper.

(** The [id] strings of [ProcessInfo], used as the last path segment. *)
Definition processPath (p : ProcessId) : jsstring :=
  match p with
  | research => Js.lit "research"
  | literature_org => Js.lit "literature-org"
  | literature_search => Js.lit "literature-search"
  | paper => Js.lit "paper"
  end.

(** [ProjectV3], the fields the tree reads. *)
Record ProjectV3 := mkProject {
  project_id : jsstring;
  research_definition_complete : bool;
  experiment_design_complete : bool
}.

(** [ProcessInfo] without its display name and icon. *)
Record ProcessInfo := mkProcess { id : ProcessId; locked : bool }.

(** The [processes] array of [ProjectNode]. *)
Definition processes (project : ProjectV3) : list ProcessInfo :=
  [ {| id := research; locked := false |};
    {| id := literature_org; locked := false |};
    {| id := literature_search;
       locked := negb (research_definition_complete project
                       && experiment_design_complete project) |};
    {| id := paper;
       locked := negb (research_definition_complete project
                       && experiment_design_complete project) |} ].

(** [handleClick] of [ProcessNode]: the path handed to [router.push], if
    any. *)
Definition handleClick (projectId : jsstring) (process : ProcessInfo)
  : option jsstring :=
  if locked process then None
  else Some (Js.lit "/project/" ++ projectId ++ Js.lit "/"
             ++ processPath (id process)).

Inductive StatusIndicator := AllUnlocked | InProgress | Started.

(** [getStatusIndicator] of [ProjectNode], by its label. *)
Definition getStatusIndicator (project : ProjectV3) : StatusIndicator :=
  if research_definition_complete project && experiment_design_complete project
  then AllUnlocked
  else if research_definition_complete project then InProgress
  else Started.

End Sidebar.

Module PageLock.

(** [ProjectStatusV3], the fields the pages read. *)
Record ProjectStatus := mkStatus {
  research_definition_complete : bool;
  experiment_design_complete : bool
}.

(** [projectStatus?.f] used as a condition. *)
Definition flag (f : ProjectStatus -> bool) (projectStatus : option ProjectStatus)
  : bool :=
  match projectStatus with Some s => f s | None => false end.

(** Paper page: [isLocked = !projectStatus?.experiment_design_complete]. *)
Definition paperLocked (projectStatus : option ProjectStatus) : bool :=
  negb (flag experiment_design_complete projectStatus).

(** Paper page: [enabled] of the paper-writing query. *)
Definition paperQueryEnabled (projectStatus : option ProjectStatus) : bool :=
  negb (negb (flag experiment_design_complete projectStatus)).

(** Literature search page: [isLocked]. *)
Definition searchLocked (projectStatus : option ProjectStatus) : bool :=
  negb (flag research_definition_complete projectStatus
        && flag experiment_design_complete projectStatus).

(** Literature search page: [enabled] of its state query. *)
Definition searchQueryEnabled (projectStatus : option ProjectStatus) : bool :=
  negb (searchLocked projectStatus).

(** What the paper page puts in its chat column. *)
Inductive ChatArea := ShowEmptyState | ShowMessages | ShowNothing.

(** What the paper page renders: the spinner of its early return, or the
    page with the locked overlay (or not), the chat column and the input
    form (or not). *)
Inductive PageView :=
| Spinner
| Content (lockedOverlay : bool) (chat : ChatArea) (inputArea : bool).

(** The paper page's rendering decisions; [loadingStatus] and
    [loadingProcess] are the [isLoading] flags of its two queries. *)
Definition paperPage (loadingStatus loadingProcess : bool)
    (projectStatus : option ProjectStatus) (messages : list Message)
  : PageView :=
  if loadingStatus || loadingProcess then Spinner
  else
    let isLocked := paperLocked projectStatus in
    let hasStarted := 0 <? Z.of_nat (List.length messages) in
    Content isLocked
      (if negb hasStarted && negb isLocked then ShowEmptyState
       else if negb isLocked then ShowMessages
       else ShowNothing)
      (hasStarted && negb isLocked).

End PageLock.

(* ====================================================================== *)
(** ** The model selector *)
(* ====================================================================== *)

Module ModelSelector.

(** An entry of [AVAILABLE_MODELS] without its description and badge. *)
Record Model := mkModel { id : jsstring; name : jsstring }.

Definition AVAILABLE_MODELS : list Model :=
  [ {| id := Js.lit "gemini-3-pro-preview"; name := Js.lit "Gemini 3 Pro" |};
    {| id := Js.lit "gemini-2.5-pro-preview-06-05"; name := Js.lit "Gemini 2.5 Pro" |};
    {| id := Js.lit "gemini-2.0-flash"; name := Js.lit "Gemini 2.0 Flash" |};
    {| id := Js.lit "gemini-2.0-flash-lite"; name := Js.lit "Gemini 2.0 Flash Lite" |} ].

(** [AVAILABLE_MODELS[0]] (the array is a non-empty constant). *)
Definition firstModel : Model :=
  match AVAILABLE_MODELS with
  | m :: _ => m
  | [] => {| id := []; name := [] |}
  end.

Definition STORAGE_KEY : jsstring := Js.lit "deepresearcher-selected-model".

(** [x || d] on [string | null]. *)
Definition orElse (x : option jsstring) (d : jsstring) : jsstring :=
  match x with
  | Some v => if Js.truthy v then v else d
  | None => d
  end.

(** [getSelectedModel]; [window] tells whether it runs in a browser. *)
Definition getSelectedModel (window : bool) (ls : LocalStorage.Storage)
  : jsstring :=
  if window then orElse (LocalStorage.getItem STORAGE_KEY ls) (id firstModel)
  else id firstModel.

(** The component's state. *)
Record State := mkState { isOpen : bool; selectedModel : jsstring }.

(** State at mount (the lazy [useState] initialisers). *)
Definition initialState (window : bool) (ls : LocalStorage.Storage) : State :=
  {| isOpen := false;
     selectedModel :=
       if window
       then orElse (LocalStorage.getItem STORAGE_KEY ls) (id firstModel)
       else id firstModel |}.

(** [handleSelectModel]: new state, new storage and the id reported to
    [onModelChange]. *)
Definition handleSelectModel (modelId : jsstring)
    (st : State) (ls : LocalStorage.Storage)
  : State * LocalStorage.Storage * jsstring :=
  ({| isOpen := false; selectedModel := modelId |},
   LocalStorage.setItem STORAGE_KEY modelId ls,
   modelId).

(** [currentModel]: the entry shown on the trigger button. *)
Definition currentModel (st : State) : Model :=
  match find (fun m => Js.eqb (id m) (selectedModel st)) AVAILABLE_MODELS with
  | Some m => m
  | None => firstModel
  end.

(** Clicking the entries [picks] of the dropdown one after the other. *)
Fixpoint selectAll (picks : list Model) (st : State) (ls : LocalStorage.Storage)
  : State * LocalStorage.Storage :=
  match picks with
  | [] => (st, ls)
  | m :: picks' =>
      let '(st', ls', _) := handleSelectModel (id m) st ls in
      selectAll picks' st' ls'
  end.

End ModelSelector.

(* ====================================================================== *)
(** ** The collapsible sidebar layout *)
(* ====================================================================== *)

Module SidebarLayout.

Definition SIDEBAR_COLLAPSED_KEY : jsstring :=
  Js.lit "deepresearcher-sidebar-collapsed".

Record State := mkState { isCollapsed : bool; isHydrated : bool }.

(** [useState(false)] twice. *)
Definition initialState : State :=
  {| isCollapsed := false; isHydrated := false |}.

(** [String(b)] on a boolean. *)
Definition String_of_bool (b : bool) : jsstring :=
  if b then Js.lit "true" else Js.lit "false".

(** The mount effect: load the collapsed flag. *)
Definition onMount (ls : LocalStorage.Storage) (st : State) : State :=
  {| isCollapsed :=
       match LocalStorage.getItem SIDEBAR_COLLAPSED_KEY ls with
       | Some saved => Js.eqb saved (Js.lit "true")
       | None => isCollapsed st
       end;
     isHydrated := true |}.

Definition toggleSidebar (st : State) (ls : LocalStorage.Storage)
  : State * LocalStorage.Storage :=
  let newState := negb (isCollapsed st) in
  ({| isCollapsed := newState; isHydrated := isHydrated st |},
   LocalStorage.setItem SIDEBAR_COLLAPSED_KEY (String_of_bool newState) ls).

End SidebarLayout.

(* ====================================================================== *)
(** ** Small forms *)
(* ====================================================================== *)

Module RenameModal.

Inductive Outcome :=
| Confirmed (newTopic : jsstring)     (* onConfirm(newTopic) *)
| Cancelled.                          (* onCancel() *)

(** [handleSubmit] of the rename modal; [newTopic] is the input's text. *)
Definition handleSubmit (currentTopic newTopic : jsstring) : Outcome :=
  if Js.truthy (Js.trim newTopic)
     && negb (Js.eqb (Js.trim newTopic) currentTopic)
  then Confirmed (Js.trim newTopic)
  else Cancelled.

End RenameModal.

Module LiteratureSearch.

(** [toggleSource]'s state updater. *)
Definition toggleSource (source : jsstring) (prev : list jsstring)
  : list jsstring :=
  if JsArray.includes prev source
  then filter (fun s => negb (Js.eqb s source)) prev
  else prev ++ [source].

(** The text of the authors line of a search result:
    [{authors.slice(0, 3).join(', ')}{authors.length > 3 && '...'}]. *)
Definition authorsLine (authors : list jsstring) : jsstring :=
  JsArray.join (Js.lit ", ") (firstn 3 authors)
  ++ (if 3 <? Z.of_nat (List.length authors) then Js.lit "..." else []).

End LiteratureSearch.

Module LiteratureOrg.

(** The [authors] field built by [AddPaperModal]'s [handleSubmit]:
    [authors.split(',').map((a) => a.trim()).filter(Boolean)]. *)
Definition parseAuthors (authors : jsstring) : list jsstring :=
  filter Js.truthy (map Js.trim (JsArray.split 44%N authors)).

End LiteratureOrg.

(** A string without white space at either end. *)
Definition trimmed (s : jsstring) : Prop := Js.trim s = s.

(* ====================================================================== *)
(** ** Facts about strings and [trim] *)
(* ====================================================================== *)

Module JsFacts.
Import Js.

Lemma eqb_eq (a b : jsstring) : eqb a b = true <-> a = b.
Proof.
  revert b; induction a as [|x a IH]; intros [|y b]; simpl;
    try (split; congruence).
  rewrite andb_true_iff, N.eqb_eq, IH.
  split; [intros [-> ->]; reflexivity | intros H; inversion H; auto].
Qed.

Lemma eqb_refl (a : jsstring) : eqb a a = true.
Proof. apply eqb_eq; reflexivity. Qed.

Lemma eqb_neq (a b : jsstring) : eqb a b = false <-> a <> b.
Proof.
  destruct (eqb a b) eqn:E.
  - apply eqb_eq in E. split; [discriminate | congruence].
  - split; [intros _ H; apply eqb_eq in H; congruence | reflexivity].
Qed.

Lemma lastOf_None {A} (l : list A) : lastOf l = None <-> l = [].
Proof.
  induction l as [|x [|y l] IH]; simpl; split; try congruence.
  - intros H. apply IH in H. discriminate.
Qed.

Lemma lastOf_app {A} (l : list A) (x : A) : lastOf (l ++ [x]) = Some x.
Proof.
  induction l as [|y l IH]; simpl; [reflexivity|].
  destruct (l ++ [x]) eqn:E; [destruct l; discriminate | exact IH].
Qed.

Section DropWhile.
Context {A : Type} (f : A -> bool).

Lemma dropWhile_head l : headRejected f (dropWhile f l).
Proof.
  induction l as [|x l IH]; simpl; [exact I|].
  destruct (f x) eqn:E; [exact IH | exact E].
Qed.

Lemma dropWhile_fixed l : headRejected f l -> dropWhile f l = l.
Proof. destruct l as [|x l]; simpl; [reflexivity | intros ->; reflexivity]. Qed.

Lemma dropWhile_idem l : dropWhile f (dropWhile f l) = dropWhile f l.
Proof. apply dropWhile_fixed, dropWhile_head. Qed.

Lemma dropWhile_split l :
  exists pre, l = pre ++ dropWhile f l /\ forallb f pre = true.
Proof.
  induction l as [|x l (pre & Hl & Hpre)]; simpl.
  - exists []; auto.
  - destruct (f x) eqn:E.
    + exists (x :: pre); simpl. rewrite E, Hpre, <- Hl. auto.
    + exists []; auto.
Qed.

Lemma dropWhile_all l : forallb f l = true -> dropWhile f l = [].
Proof.
  induction l as [|x l IH]; simpl; [reflexivity|].
  intros H. apply andb_true_iff in H as [-> H]. auto.
Qed.

Lemma dropWhile_nil l : dropWhile f l = [] -> forallb f l = true.
Proof.
  intros H. destruct (dropWhile_split l) as (pre & Hl & Hpre).
  rewrite H, app_nil_r in Hl. congruence.
Qed.
End DropWhile.

Lemma trimEnd_idem s : trimEnd (trimEnd s) = trimEnd s.
Proof.
  unfold trimEnd. rewrite rev_involutive, dropWhile_idem. reflexivity.
Qed.

Lemma trimEnd_prefix s : exists suf, s = trimEnd s ++ suf.
Proof.
  unfold trimEnd.
  destruct (dropWhile_split isWhiteSpace (rev s)) as (pre & H & _).
  exists (rev pre). rewrite <- rev_app_distr, <- H, rev_involutive.
  reflexivity.
Qed.

Lemma trimStart_trimEnd s :
  headRejected isWhiteSpace s -> trimStart (trimEnd s) = trimEnd s.
Proof.
  intros H. unfold trimStart. apply dropWhile_fixed.
  destruct (trimEnd_prefix s) as (suf & E).
  destruct (trimEnd s) as [|x t]; [exact I|].
  rewrite E in H. exact H.
Qed.

(** [trim] is idempotent: a trimmed string is its own trim. *)
Lemma trim_idem s : trim (trim s) = trim s.
Proof.
  unfold trim. rewrite trimStart_trimEnd.
  - apply trimEnd_idem.
  - apply dropWhile_head.
Qed.

(** A string trims to the empty string exactly when it consists of white
    space only. *)
Lemma trim_nil_iff s : trim s = [] <-> forallb isWhiteSpace s = true.
Proof.
  unfold trim, trimEnd, trimStart. split.
  - intros H.
    assert (H1 : dropWhile isWhiteSpace (rev (dropWhile isWhiteSpace s)) = []).
    { apply (f_equal (@rev N)) in H. rewrite rev_involutive in H. exact H. }
    apply dropWhile_nil in H1.
    rewrite forallb_forall in H1.
    destruct (dropWhile_split isWhiteSpace s) as (pre & Hs & Hpre).
    rewrite Hs, forallb_app, Hpre. simpl.
    apply forallb_forall. intros x Hx. apply H1, in_rev.
    rewrite rev_involutive. exact Hx.
  - intros H. rewrite (dropWhile_all _ _ H). reflexivity.
Qed.

Lemma truthy_false s : truthy s = false <-> s = [].
Proof. destruct s; simpl; split; congruence. Qed.

Lemma truthy_true s : truthy s = true <-> s <> [].
Proof. destruct s; simpl; split; congruence. Qed.

End JsFacts.

(* ====================================================================== *)
(** ** The callbacks, case by case *)
(* ====================================================================== *)

Section Callbacks.
Variable log : list Message.
Variable st : State.

(** The effect does nothing on an empty log. *)
Lemma onLogUpdated_empty : log = [] -> onLogUpdated log st = (st, []).
Proof. intros ->. reflexivity. Qed.

(** One run of the effect, in terms of its two guards. *)
Lemma onLogUpdated_guards lastMsg :
  Js.lastOf log = Some lastMsg ->
  onLogUpdated log st =
    ({| inputMessage := inputMessage st;
        isWaitingForResponse :=
          if responseGuard log lastMsg st then false
          else isWaitingForResponse st;
        pendingMessage :=
          if responseGuard log lastMsg st || echoGuard lastMsg st then None
          else pendingMessage st;
        messageCountWhenSentRef :=
          if responseGuard log lastMsg st then -1
          else messageCountWhenSentRef st |}, []).
Proof.
  intros H. unfold onLogUpdated. rewrite H.
  unfold responseGuard, echoGuard.
  destruct st as [i w pm c]; cbn [isWaitingForResponse pendingMessage
    messageCountWhenSentRef inputMessage].
  destruct (Js.truthy_opt pm && Js.eqb (agent lastMsg) user
            && Js.eqb_opt (content lastMsg) pm);
    cbv [andThen withMessageCountWhenSent ifThen skip setPendingMessage];
    cbn [isWaitingForResponse pendingMessage messageCountWhenSentRef
         inputMessage];
    destruct (w && negb (Js.eqb (agent lastMsg) user)
              && (Z.of_nat (List.length log) >? c)); reflexivity.
Qed.

(** The effect never emits a command. *)
Lemma onLogUpdated_silent : snd (onLogUpdated log st) = [].
Proof.
  destruct (Js.lastOf log) as [m|] eqn:E.
  - rewrite (onLogUpdated_guards m E). reflexivity.
  - apply JsFacts.lastOf_None in E. rewrite onLogUpdated_empty; auto.
Qed.

(** [handleSendMessage] when its guard lets the send through. *)
Lemma handleSendMessage_sends :
  Js.trim (inputMessage st) <> [] ->
  isWaitingForResponse st = false ->
  handleSendMessage log st =
    ({| inputMessage := [];
        isWaitingForResponse := true;
        pendingMessage := Some (Js.trim (inputMessage st));
        messageCountWhenSentRef := Z.of_nat (List.length log) |},
     [Mutate (Js.trim (inputMessage st))]).
Proof.
  intros Ht Hw. unfold handleSendMessage.
  apply JsFacts.truthy_true in Ht. rewrite Ht, Hw. reflexivity.
Qed.

(** [handleSendMessage] when its guard returns early. *)
Lemma handleSendMessage_returns :
  isWaitingForResponse st = true \/ Js.trim (inputMessage st) = [] ->
  handleSendMessage log st = (st, []).
Proof.
  intros H. unfold handleSendMessage.
  destruct H as [-> | H].
  - rewrite orb_true_r. reflexivity.
  - apply JsFacts.truthy_false in H. rewrite H. reflexivity.
Qed.

Lemma handleSendMessage_cases :
  handleSendMessage log st = (st, [])
  \/ (Js.trim (inputMessage st) <> []
      /\ isWaitingForResponse st = false
      /\ handleSendMessage log st =
           ({| inputMessage := [];
               isWaitingForResponse := true;
               pendingMessage := Some (Js.trim (inputMessage st));
               messageCountWhenSentRef := Z.of_nat (List.length log) |},
            [Mutate (Js.trim (inputMessage st))])).
Proof.
  destruct (isWaitingForResponse st) eqn:Hw.
  - left. apply handleSendMessage_returns. auto.
  - destruct (Js.trim (inputMessage st)) as [|c t] eqn:Ht.
    + left. apply handleSendMessage_returns. auto.
    + right. repeat split; try discriminate.
      rewrite <- Ht. apply handleSendMessage_sends; congruence.
Qed.

End Callbacks.

(* ====================================================================== *)
(** ** Invariants of the page *)
(* ====================================================================== *)

Lemma pendingTrimmed_onLogUpdated log st :
  pendingTrimmed st -> pendingTrimmed (fst (onLogUpdated log st)).
Proof.
  intros H. destruct (Js.lastOf log) as [m|] eqn:E.
  - rewrite (onLogUpdated_guards log st m E). unfold pendingTrimmed; simpl.
    destruct (responseGuard log m st || echoGuard m st); [discriminate | exact H].
  - apply JsFacts.lastOf_None in E. rewrite onLogUpdated_empty; auto.
Qed.

Lemma pendingTrimmed_handleSendMessage log st :
  pendingTrimmed st -> pendingTrimmed (fst (handleSendMessage log st)).
Proof.
  intros H. destruct (handleSendMessage_cases log st) as [-> | (Ht & _ & ->)].
  - exact H.
  - intros m Hm. simpl in Hm. injection Hm as <-.
    split; [exact Ht | apply JsFacts.trim_idem].
Qed.

(** A run of the effect with both guards off changes nothing. *)
Lemma onLogUpdated_quiet log st :
  (forall m, Js.lastOf log = Some m ->
     responseGuard log m st = false /\ echoGuard m st = false) ->
  onLogUpdated log st = (st, []).
Proof.
  intros H. destruct (Js.lastOf log) as [m|] eqn:E.
  - rewrite (onLogUpdated_guards log st m E).
    destruct (H m eq_refl) as [-> ->]. destruct st; reflexivity.
  - apply JsFacts.lastOf_None in E. apply onLogUpdated_empty, E.
Qed.

(** A run of the effect that changes nothing had both guards off. *)
Lemma onLogUpdated_fixed log st m :
  onLogUpdated log st = (st, []) ->
  Js.lastOf log = Some m ->
  responseGuard log m st = false /\ echoGuard m st = false.
Proof.
  intros H E. rewrite (onLogUpdated_guards log st m E) in H.
  destruct st as [i w pm c]. unfold responseGuard, echoGuard in *.
  cbn [isWaitingForResponse pendingMessage messageCountWhenSentRef
       inputMessage] in *.
  destruct (w && negb (Js.eqb (agent m) user)
            && (Z.of_nat (List.length log) >? c)) eqn:R.
  - destruct w; [discriminate H | discriminate R].
  - split; [reflexivity|]. cbn [orb] in H.
    destruct (Js.truthy_opt pm && Js.eqb (agent m) user
              && Js.eqb_opt (content m) pm) eqn:G; [|reflexivity].
    destruct pm; [discriminate H | discriminate G].
Qed.

(** One run of the effect reaches a fixed point. *)
Lemma onLogUpdated_idem log st :
  onLogUpdated log (fst (onLogUpdated log st))
  = (fst (onLogUpdated log st), []).
Proof.
  destruct (Js.lastOf log) as [m|] eqn:E.
  - rewrite (onLogUpdated_guards log st m E). cbn [fst].
    rewrite (onLogUpdated_guards log _ m E).
    destruct st as [i w pm c].
    unfold responseGuard, echoGuard.
    cbn [isWaitingForResponse pendingMessage messageCountWhenSentRef inputMessage].
    destruct (w && negb (Js.eqb (agent m) user)
              && (Z.of_nat (List.length log) >? c)) eqn:R.
    + reflexivity.
    + rewrite R. cbn [orb].
      destruct (Js.truthy_opt pm && Js.eqb (agent m) user && Js.eqb_opt (content m) pm) eqn:G.
      * reflexivity.
      * rewrite G. reflexivity.
  - apply JsFacts.lastOf_None in E.
    rewrite !(onLogUpdated_empty log _ E). reflexivity.
Qed.

(** The effect never raises the waiting flag. *)
Lemma onLogUpdated_lowers log st :
  isWaitingForResponse st = false ->
  isWaitingForResponse (fst (onLogUpdated log st)) = false.
Proof.
  intros Hw. destruct (Js.lastOf log) as [m|] eqn:E.
  - rewrite (onLogUpdated_guards log st m E). cbn.
    destruct (responseGuard log m st); auto.
  - apply JsFacts.lastOf_None in E.
    rewrite (onLogUpdated_empty log st E). exact Hw.
Qed.

(** The effect does not look at the input. *)
Lemma onLogUpdated_setInputMessage log text st :
  onLogUpdated log st = (st, []) ->
  onLogUpdated log (fst (setInputMessage text st))
  = (fst (setInputMessage text st), []).
Proof.
  intros H. apply onLogUpdated_quiet. intros m E.
  exact (onLogUpdated_fixed log st m H E).
Qed.

(** Once the flag is down, the effect has nothing to do where it had
    nothing to do with the flag up. *)
Lemma onLogUpdated_onTimeout log st :
  onLogUpdated log st = (st, []) ->
  onLogUpdated log (fst (onTimeout st)) = (fst (onTimeout st), []).
Proof.
  intros H. apply onLogUpdated_quiet. intros m E.
  destruct (onLogUpdated_fixed log st m H E) as [_ G].
  split; [reflexivity | exact G].
Qed.

Lemma watchdogEffect_tracks now before after timer :
  before = match timer with Some _ => true | None => false end ->
  after = match watchdogEffect now before after timer with
          | Some _ => true | None => false end.
Proof.
  intros ->. unfold watchdogEffect.
  destruct timer, after; reflexivity.
Qed.

Lemma watchdogEffect_same now flag timer :
  watchdogEffect now flag flag timer = timer.
Proof. unfold watchdogEffect. rewrite Bool.eqb_reflx. reflexivity. Qed.

Lemma watchdogEffect_down now before timer :
  watchdogEffect now before false timer = timer
  \/ watchdogEffect now before false timer = None.
Proof. unfold watchdogEffect. destruct before; cbn; auto. Qed.

(** After a re-render the page is settled: the effect has run on the log
    it shows. *)
Lemma rerender_settled now p log timer res :
  settled (fst (rerender now p log timer res)).
Proof. unfold settled, rerender. cbn [fst state messages]. apply onLogUpdated_idem. Qed.

Lemma rerender_invariant now p log timer res :
  pendingTrimmed (fst res) ->
  isWaitingForResponse (state p)
  = match timer with Some _ => true | None => false end ->
  pendingTrimmed (state (fst (rerender now p log timer res)))
  /\ timerTracksWaiting (fst (rerender now p log timer res)).
Proof.
  intros Hp Ht. unfold rerender. cbn [fst state]. split.
  - apply pendingTrimmed_onLogUpdated, Hp.
  - unfold timerTracksWaiting. cbn [state waitTimer].
    apply watchdogEffect_tracks, watchdogEffect_tracks, Ht.
Qed.

(** The steps on a settled page, event by event. *)

Lemma step_Typed now text p :
  settled p ->
  step now (Typed text) p =
    Some ({| state := fst (setInputMessage text (state p));
             messages := messages p;
             waitTimer := waitTimer p |}, []).
Proof.
  intros Hs. cbn [step]. unfold rerender.
  rewrite (onLogUpdated_setInputMessage _ text _ Hs).
  cbn [fst snd setInputMessage isWaitingForResponse app].
  rewrite !watchdogEffect_same. reflexivity.
Qed.

Lemma step_SendSucceeded now p :
  settled p ->
  step now SendSucceeded p = Some (p, [InvalidateQueries]).
Proof.
  intros Hs. cbn [step]. unfold rerender, onSuccess, emit.
  cbn [fst snd]. rewrite Hs. cbn [fst snd app].
  rewrite !watchdogEffect_same. destruct p; reflexivity.
Qed.

Lemma step_SendFailed now p :
  step now SendFailed p =
    Some ({| state := fst (onError (state p));
             messages := messages p;
             waitTimer := watchdogEffect now (isWaitingForResponse (state p))
                            false (waitTimer p) |}, []).
Proof.
  cbn [step]. unfold rerender.
  rewrite onLogUpdated_quiet by (intros m _; split; reflexivity).
  reflexivity.
Qed.

Lemma step_LogUpdated now log p :
  step now (LogUpdated log) p =
    Some ({| state := fst (onLogUpdated log (state p));
             messages := log;
             waitTimer := watchdogEffect now (isWaitingForResponse (state p))
                            (isWaitingForResponse (fst (onLogUpdated log (state p))))
                            (waitTimer p) |}, []).
Proof.
  cbn [step]. unfold rerender, skip. cbn [fst snd app].
  rewrite watchdogEffect_same, onLogUpdated_silent. reflexivity.
Qed.

Lemma step_WatchdogFired now due p :
  settled p ->
  waitTimer p = Some due ->
  due <= now ->
  step now WatchdogFired p =
    Some ({| state := fst (onTimeout (state p));
             messages := messages p;
             waitTimer := None |}, []).
Proof.
  intros Hs Hd Hle. cbn [step]. rewrite Hd.
  apply Z.leb_le in Hle. rewrite Hle. unfold rerender.
  rewrite (onLogUpdated_onTimeout _ _ Hs).
  cbn [fst snd onTimeout setIsWaitingForResponse isWaitingForResponse app].
  rewrite watchdogEffect_same.
  destruct (watchdogEffect_down now (isWaitingForResponse (state p)) None)
    as [-> | ->]; reflexivity.
Qed.

(** A send that goes through at instant [t]: the watchdog is set for
    [t + 60000], and the message is pending unless the log already ends
    with it. *)
Lemma step_Submit_sends t p :
  isWaitingForResponse (state p) = false ->
  Js.trim (inputMessage (state p)) <> [] ->
  step t Submit p =
    Some ({| state := {| inputMessage := [];
                         isWaitingForResponse := true;
                         pendingMessage :=
                           if echoes (messages p) (Js.trim (inputMessage (state p)))
                           then None
                           else Some (Js.trim (inputMessage (state p)));
                         messageCountWhenSentRef :=
                           Z.of_nat (List.length (messages p)) |};
             messages := messages p;
             waitTimer := Some (t + 60000) |},
          [Mutate (Js.trim (inputMessage (state p)))]).
Proof.
  intros Hw Ht. cbn [step]. unfold rerender.
  rewrite (handleSendMessage_sends (messages p) (state p) Ht Hw).
  cbn [fst snd isWaitingForResponse]. rewrite Hw.
  unfold echoes.
  destruct (Js.lastOf (messages p)) as [m|] eqn:E.
  - rewrite (onLogUpdated_guards _ _ m E).
    unfold responseGuard, echoGuard.
    cbn [fst snd isWaitingForResponse pendingMessage messageCountWhenSentRef
         inputMessage Js.truthy_opt Js.eqb_opt].
    replace (Z.of_nat (List.length (messages p)) >? Z.of_nat (List.length (messages p)))
      with false by (symmetry; rewrite Z.gtb_ltb; apply Z.ltb_irrefl).
    rewrite andb_false_r. cbn [orb].
    apply JsFacts.truthy_true in Ht. rewrite Ht. cbn [andb].
    reflexivity.
  - apply JsFacts.lastOf_None in E.
    rewrite (onLogUpdated_empty _ _ E). reflexivity.
Qed.

(** A send that returns early changes nothing. *)
Lemma step_Submit_returns t p :
  settled p ->
  isWaitingForResponse (state p) = true \/ Js.trim (inputMessage (state p)) = [] ->
  step t Submit p = Some (p, []).
Proof.
  intros Hs H. cbn [step]. unfold rerender.
  rewrite (handleSendMessage_returns (messages p) (state p) H).
  cbn [fst snd]. rewrite Hs. cbn [fst snd app].
  rewrite !watchdogEffect_same. destruct p; reflexivity.
Qed.

(** From [Some x = Some (p', cmds)] to [p'] and [cmds] as the components
    of [x], left as they are. *)
Lemma step_result {A B} (x : A * B) a b :
  Some x = Some (a, b) -> a = fst x /\ b = snd x.
Proof. intros H. injection H as ->. auto. Qed.

Ltac page_of Hstep :=
  apply step_result in Hstep; destruct Hstep as [-> ->].

Lemma step_invariant now ev p p' cmds :
  step now ev p = Some (p', cmds) ->
  pendingTrimmed (state p) /\ timerTracksWaiting p ->
  pendingTrimmed (state p') /\ timerTracksWaiting p'.
Proof.
  intros Hstep [Hp Ht].
  destruct ev; cbn [step] in Hstep.
  - page_of Hstep. apply rerender_invariant; [exact Hp | exact Ht].
  - page_of Hstep. apply rerender_invariant;
      [apply pendingTrimmed_handleSendMessage, Hp | exact Ht].
  - page_of Hstep. apply rerender_invariant; [exact Hp | exact Ht].
  - page_of Hstep. apply rerender_invariant;
      [intros m Hm; discriminate | exact Ht].
  - page_of Hstep. apply rerender_invariant; [exact Hp | exact Ht].
  - destruct (waitTimer p) as [due|] eqn:Hd; [|discriminate].
    destruct (due <=? now); [|discriminate].
    page_of Hstep. unfold rerender. cbn [fst state]. split.
    + apply pendingTrimmed_onLogUpdated, Hp.
    + unfold timerTracksWaiting. cbn [state waitTimer fst onTimeout
        setIsWaitingForResponse isWaitingForResponse].
      rewrite onLogUpdated_lowers by reflexivity.
      rewrite watchdogEffect_same.
      destruct (watchdogEffect_down now (isWaitingForResponse (state p)) None)
        as [-> | ->]; reflexivity.
Qed.

Lemma step_settled now ev p p' cmds :
  step now ev p = Some (p', cmds) -> settled p'.
Proof.
  intros Hstep. destruct ev; cbn [step] in Hstep;
    try (page_of Hstep; apply rerender_settled).
  destruct (waitTimer p) as [due|]; [|discriminate].
  destruct (due <=? now); [|discriminate].
  page_of Hstep. apply rerender_settled.
Qed.

(** Every reachable page holds a trimmed, non-empty pending message (or
    none) and has its watchdog set exactly while waiting. *)
Lemma reachable_invariant p :
  reachable p -> pendingTrimmed (state p) /\ timerTracksWaiting p.
Proof.
  induction 1 as [|p now ev p' cmds _ IH Hstep].
  - split; [intros m Hm; discriminate | reflexivity].
  - exact (step_invariant now ev p p' cmds Hstep IH).
Qed.

(** In every reachable page the response-detection effect is at rest: run
    again on the same log with the same state it changes nothing, so
    running it at every re-render is the same as running it when its
    dependencies have changed. *)
Lemma reachable_settled p : reachable p -> settled p.
Proof.
  destruct 1 as [|p now ev p' cmds _ Hstep].
  - reflexivity.
  - exact (step_settled now ev p p' cmds Hstep).
Qed.

Lemma run_reachable evs : forall p p',
  reachable p -> run evs p = Some p' -> reachable p'.
Proof.
  induction evs as [|[now ev] evs IH]; simpl; intros p p' Hp Hrun.
  - injection Hrun as <-. exact Hp.
  - destruct (step now ev p) as [[q c]|] eqn:Hs; [|discriminate].
    apply (IH q); [|exact Hrun]. exact (reach_step p now ev q c Hp Hs).
Qed.

(* ====================================================================== *)
(** ** Response detection *)
(* ====================================================================== *)

(** With a last entry that is the user's, the response guard is off. *)
Lemma responseGuard_user log lastMsg st :
  agent lastMsg = user -> responseGuard log lastMsg st = false.
Proof.
  intros H. unfold responseGuard. rewrite H, JsFacts.eqb_refl.
  simpl. rewrite andb_false_r. reflexivity.
Qed.

(** With a last entry that is not the user's, the echo guard is off. *)
Lemma echoGuard_other lastMsg st :
  agent lastMsg <> user -> echoGuard lastMsg st = false.
Proof.
  intros H. apply JsFacts.eqb_neq in H. unfold echoGuard. rewrite H.
  rewrite andb_false_r. reflexivity.
Qed.

(** Once resolved (nothing pending, not waiting) a run of the effect
    changes nothing, whatever the log. *)
Lemma onLogUpdated_resolved log st :
  pendingMessage st = None -> isWaitingForResponse st = false ->
  onLogUpdated log st = (st, []).
Proof.
  intros Hp Hw. destruct (Js.lastOf log) as [m|] eqn:E.
  - rewrite (onLogUpdated_guards log st m E).
    unfold responseGuard, echoGuard. rewrite Hp, Hw. simpl.
    destruct st; simpl in *; subst; reflexivity.
  - apply JsFacts.lastOf_None in E. apply onLogUpdated_empty, E.
Qed.

(** C1 (as stated, refuted).  A response observed after the watchdog has
    already cleared the waiting flag does not clear the pending message:
    send "x" on an empty log, let the watchdog fire, then poll a log that
    holds the user's message followed by a system message.  The log is
    non-empty, its last entry is not the user's and it is longer than the
    snapshot (0), yet the pending message is still "x". *)
Lemma response_after_watchdog_keeps_pending :
  ~ (forall p log lastMsg,
       reachable p ->
       Js.lastOf log = Some lastMsg ->
       agent lastMsg <> user ->
       messageCountWhenSentRef (state p) < Z.of_nat (List.length log) ->
       isWaitingForResponse (fst (onLogUpdated log (state p))) = false
       /\ pendingMessage (fst (onLogUpdated log (state p))) = None).
Proof.
  intros H.
  pose (sent := mkMessage user (Js.lit "x") (Js.lit "2024-01-15T09:30:00Z")).
  pose (reply := mkMessage (Js.lit "system") (Js.lit "ok")
                   (Js.lit "2024-01-15T09:31:30Z")).
  pose (p := {| state := {| inputMessage := [];
                            isWaitingForResponse := false;
                            pendingMessage := Some (Js.lit "x");
                            messageCountWhenSentRef := 0 |};
                messages := [];
                waitTimer := None |}).
  assert (Hp : reachable p).
  { apply (run_reachable
             [(0, Typed (Js.lit "x")); (1, Submit); (60001, WatchdogFired)]
             initialPage p reach_init).
    reflexivity. }
  destruct (H p [sent; reply] reply Hp) as [_ Hpending].
  - reflexivity.
  - intros E. vm_compute in E. discriminate E.
  - reflexivity.
  - vm_compute in Hpending. discriminate Hpending.
Qed.

(** C1 (amended).  While the page is waiting, a run of the effect on a
    non-empty log whose last entry is not the user's and whose length
    exceeds the snapshot taken at send time clears the waiting flag and the
    pending message (and resets the snapshot), touching nothing else. *)
Theorem response_clears_waiting_and_pending log st lastMsg :
  isWaitingForResponse st = true ->
  Js.lastOf log = Some lastMsg ->
  agent lastMsg <> user ->
  messageCountWhenSentRef st < Z.of_nat (List.length log) ->
  isWaitingForResponse (fst (onLogUpdated log st)) = false
  /\ pendingMessage (fst (onLogUpdated log st)) = None
  /\ messageCountWhenSentRef (fst (onLogUpdated log st)) = -1
  /\ inputMessage (fst (onLogUpdated log st)) = inputMessage st
  /\ snd (onLogUpdated log st) = [].
Proof.
  intros Hw Hlast Hagent Hlen.
  rewrite (onLogUpdated_guards log st lastMsg Hlast).
  assert (G : responseGuard log lastMsg st = true).
  { unfold responseGuard. apply JsFacts.eqb_neq in Hagent.
    rewrite Hw, Hagent. simpl. apply Z.gtb_lt. exact Hlen. }
  rewrite G. simpl. auto.
Qed.

Lemma response_clears_waiting_and_pending_witness :
  let st := {| inputMessage := [];
               isWaitingForResponse := true;
               pendingMessage := Some (Js.lit "hello");
               messageCountWhenSentRef := 0 |} in
  let echo := mkMessage user (Js.lit "hello") (Js.lit "2024-01-15T09:30:00Z") in
  let reply := mkMessage (Js.lit "system") (Js.lit "ok") (Js.lit "2024-01-15T09:30:05Z") in
  isWaitingForResponse (fst (onLogUpdated [echo; reply] st)) = false
  /\ pendingMessage (fst (onLogUpdated [echo; reply] st)) = None
  /\ messageCountWhenSentRef (fst (onLogUpdated [echo; reply] st)) = -1
  /\ inputMessage (fst (onLogUpdated [echo; reply] st)) = inputMessage st
  /\ snd (onLogUpdated [echo; reply] st) = [].
Proof.
  intros st echo reply.
  apply (response_clears_waiting_and_pending [echo; reply] st reply).
  - reflexivity.
  - reflexivity.
  - intros E. vm_compute in E. discriminate E.
  - simpl. lia.
Defined.

(** C3.  In every reachable page, a run of the effect on a non-empty log
    whose last entry is the user's and carries the pending text clears the
    pending message and leaves the waiting flag (and the rest of the state)
    as it was. *)
Theorem echo_clears_pending_only p log lastMsg :
  reachable p ->
  Js.lastOf log = Some lastMsg ->
  agent lastMsg = user ->
  pendingMessage (state p) = Some (content lastMsg) ->
  pendingMessage (fst (onLogUpdated log (state p))) = None
  /\ isWaitingForResponse (fst (onLogUpdated log (state p)))
     = isWaitingForResponse (state p)
  /\ messageCountWhenSentRef (fst (onLogUpdated log (state p)))
     = messageCountWhenSentRef (state p)
  /\ inputMessage (fst (onLogUpdated log (state p))) = inputMessage (state p).
Proof.
  intros Hreach Hlast Hagent Hpending.
  destruct (reachable_invariant p Hreach) as [Htrim _].
  destruct (Htrim _ Hpending) as [Hne _].
  rewrite (onLogUpdated_guards log (state p) lastMsg Hlast).
  rewrite (responseGuard_user log lastMsg (state p) Hagent).
  assert (G : echoGuard lastMsg (state p) = true).
  { unfold echoGuard. rewrite Hpending, Hagent. simpl.
    rewrite !JsFacts.eqb_refl. apply JsFacts.truthy_true in Hne.
    rewrite Hne. reflexivity. }
  rewrite G. simpl. auto.
Qed.

Lemma echo_clears_pending_only_witness :
  let p := {| state := {| inputMessage := [];
                          isWaitingForResponse := true;
                          pendingMessage := Some (Js.lit "hello");
                          messageCountWhenSentRef := 0 |};
              messages := [];
              waitTimer := Some 60001 |} in
  let echo := mkMessage user (Js.lit "hello") (Js.lit "2024-01-15T09:30:00Z") in
  pendingMessage (fst (onLogUpdated [echo] (state p))) = None
  /\ isWaitingForResponse (fst (onLogUpdated [echo] (state p))) = true
  /\ messageCountWhenSentRef (fst (onLogUpdated [echo] (state p))) = 0
  /\ inputMessage (fst (onLogUpdated [echo] (state p))) = [].
Proof.
  intros p echo.
  apply (echo_clears_pending_only p [echo] echo).
  - apply (run_reachable [(0, Typed (Js.lit " hello ")); (1, Submit)]
             initialPage p reach_init).
    reflexivity.
  - reflexivity.
  - reflexivity.
  - reflexivity.
Defined.

(** C6.  After resolution (no pending message, not waiting) any number of
    runs of the effect on the same log leaves the state as it is, and each
    single run is a no-op. *)
Theorem onLogUpdated_idempotent_after_resolution n log st :
  pendingMessage st = None ->
  isWaitingForResponse st = false ->
  onLogUpdated_times n log st = st /\ onLogUpdated log st = (st, []).
Proof.
  intros Hp Hw. split; [|apply onLogUpdated_resolved; assumption].
  induction n as [|n IH]; simpl; [reflexivity|].
  rewrite (onLogUpdated_resolved log st Hp Hw). exact IH.
Qed.

Lemma onLogUpdated_idempotent_after_resolution_witness :
  let st := {| inputMessage := Js.lit "next";
               isWaitingForResponse := false;
               pendingMessage := None;
               messageCountWhenSentRef := -1 |} in
  let log := [mkMessage user (Js.lit "hello") [];
              mkMessage (Js.lit "system") (Js.lit "ok") []] in
  onLogUpdated_times 5 log st = st /\ onLogUpdated log st = (st, []).
Proof.
  intros st log.
  apply (onLogUpdated_idempotent_after_resolution 5 log st); reflexivity.
Defined.

(* ====================================================================== *)
(** ** Sending *)
(* ====================================================================== *)

(** C2.  A send whose trimmed text is non-empty while the page is not
    waiting records the length of the log as the snapshot, stores the
    (trimmed) text as the pending message, raises the waiting flag, clears
    the input and issues the network send; a send while waiting, or with an
    empty (or blank) text, changes nothing and issues nothing. *)
Theorem handleSendMessage_effects log st :
  (Js.trim (inputMessage st) <> [] ->
   isWaitingForResponse st = false ->
   messageCountWhenSentRef (fst (handleSendMessage log st))
     = Z.of_nat (List.length log)
   /\ pendingMessage (fst (handleSendMessage log st))
      = Some (Js.trim (inputMessage st))
   /\ isWaitingForResponse (fst (handleSendMessage log st)) = true
   /\ inputMessage (fst (handleSendMessage log st)) = []
   /\ snd (handleSendMessage log st) = [Mutate (Js.trim (inputMessage st))])
  /\
  (isWaitingForResponse st = true
   \/ inputMessage st = []
   \/ Js.trim (inputMessage st) = [] ->
   handleSendMessage log st = (st, [])).
Proof.
  split.
  - intros Ht Hw. rewrite (handleSendMessage_sends log st Ht Hw). simpl. auto.
  - intros [H | [H | H]]; apply handleSendMessage_returns; auto.
    right. rewrite H. reflexivity.
Qed.

Lemma handleSendMessage_effects_witness :
  let ready := {| inputMessage := Js.lit "hello";
                  isWaitingForResponse := false;
                  pendingMessage := None;
                  messageCountWhenSentRef := -1 |} in
  let busy := {| inputMessage := Js.lit "again";
                 isWaitingForResponse := true;
                 pendingMessage := Some (Js.lit "hello");
                 messageCountWhenSentRef := 2 |} in
  let log := [mkMessage (Js.lit "system") (Js.lit "welcome") [];
              mkMessage (Js.lit "journal_writing") (Js.lit "hi") []] in
  (messageCountWhenSentRef (fst (handleSendMessage log ready)) = 2
   /\ pendingMessage (fst (handleSendMessage log ready)) = Some (Js.lit "hello")
   /\ isWaitingForResponse (fst (handleSendMessage log ready)) = true
   /\ inputMessage (fst (handleSendMessage log ready)) = []
   /\ snd (handleSendMessage log ready) = [Mutate (Js.lit "hello")])
  /\ handleSendMessage log busy = (busy, [])
  /\ handleSendMessage log initialState = (initialState, []).
Proof.
  intros ready busy log. split; [|split].
  - apply (proj1 (handleSendMessage_effects log ready)).
    + intros E. vm_compute in E. discriminate E.
    + reflexivity.
  - apply (proj2 (handleSendMessage_effects log busy)). left. reflexivity.
  - apply (proj2 (handleSendMessage_effects log initialState)).
    right. left. reflexivity.
Defined.

(** C9.  In every reachable page that is not waiting, a send of an input
    whose trim is non-empty stores the trimmed input as the pending message
    and hands the trimmed input, once, to the network send; whatever the
    page, every text handed to the network send is the trimmed input and is
    the pending message afterwards; an input made of white space only makes
    the send a no-op; and an input that differs from its trim is never what
    the pending message holds afterwards. *)
Theorem handleSendMessage_uses_trimmed_input p log :
  reachable p ->
  (Js.trim (inputMessage (state p)) <> [] ->
   isWaitingForResponse (state p) = false ->
   pendingMessage (fst (handleSendMessage log (state p)))
     = Some (Js.trim (inputMessage (state p)))
   /\ snd (handleSendMessage log (state p))
      = [Mutate (Js.trim (inputMessage (state p)))])
  /\ (forall sent,
        In (Mutate sent) (snd (handleSendMessage log (state p))) ->
        sent = Js.trim (inputMessage (state p))
        /\ pendingMessage (fst (handleSendMessage log (state p))) = Some sent)
  /\ (forallb Js.isWhiteSpace (inputMessage (state p)) = true ->
      handleSendMessage log (state p) = (state p, []))
  /\ (inputMessage (state p) <> Js.trim (inputMessage (state p)) ->
      pendingMessage (fst (handleSendMessage log (state p)))
      <> Some (inputMessage (state p))).
Proof.
  intros Hreach.
  destruct (reachable_invariant p Hreach) as [Htrim _].
  split; [|split; [|split]].
  - intros Ht Hw. rewrite (handleSendMessage_sends log (state p) Ht Hw).
    split; reflexivity.
  - intros sent Hin.
    destruct (handleSendMessage_cases log (state p)) as [H | (_ & _ & H)];
      rewrite H in Hin |- *; cbn [fst snd pendingMessage] in Hin |- *.
    + destruct Hin.
    + destruct Hin as [E | []]. injection E as <-. split; reflexivity.
  - intros Hws. apply handleSendMessage_returns. right.
    apply JsFacts.trim_nil_iff, Hws.
  - intros Hdiff Hstored.
    destruct (handleSendMessage_cases log (state p)) as [H | (_ & _ & H)];
      rewrite H in Hstored; simpl in Hstored.
    + destruct (Htrim _ Hstored) as [_ Hfix]. congruence.
    + congruence.
Qed.

Lemma handleSendMessage_uses_trimmed_input_witness :
  let padded := {| state := {| inputMessage := Js.lit "  hello world ";
                               isWaitingForResponse := false;
                               pendingMessage := None;
                               messageCountWhenSentRef := -1 |};
                   messages := [];
                   waitTimer := None |} in
  let blank := {| state := {| inputMessage := Js.lit "   ";
                              isWaitingForResponse := false;
                              pendingMessage := None;
                              messageCountWhenSentRef := -1 |};
                  messages := [];
                  waitTimer := None |} in
  (pendingMessage (fst (handleSendMessage [] (state padded)))
     = Some (Js.lit "hello world")
   /\ snd (handleSendMessage [] (state padded)) = [Mutate (Js.lit "hello world")])
  /\ pendingMessage (fst (handleSendMessage [] (state padded)))
     <> Some (Js.lit "  hello world ")
  /\ handleSendMessage [] (state blank) = (state blank, []).
Proof.
  intros padded blank.
  assert (Hp : reachable padded).
  { apply (run_reachable [(0, Typed (Js.lit "  hello world "))]
             initialPage padded reach_init).
    reflexivity. }
  assert (Hb : reachable blank).
  { apply (run_reachable [(0, Typed (Js.lit "   "))] initialPage blank reach_init).
    reflexivity. }
  destruct (handleSendMessage_uses_trimmed_input padded [] Hp) as (H1 & _ & _ & H4).
  destruct (handleSendMessage_uses_trimmed_input blank [] Hb) as (_ & _ & H3 & _).
  split; [|split].
  - apply H1; [intros E; vm_compute in E; discriminate E | reflexivity].
  - apply H4. intros E. vm_compute in E. discriminate E.
  - apply H3. reflexivity.
Defined.

(** C5.  The failure callback of a send clears the waiting flag and the
    pending message and resets the snapshot, whatever the state it runs in:
    the reconciliation state is back at its idle (mount) value, the input
    is left as it is, and nothing is issued (no retry). *)
Theorem onError_rolls_back log st :
  reconciliation (fst (onError st)) = idle
  /\ reconciliation (fst (onError (fst (handleSendMessage log st)))) = idle
  /\ idle = reconciliation initialState
  /\ inputMessage (fst (onError st)) = inputMessage st
  /\ snd (onError st) = [].
Proof. repeat split. Qed.

(** C8.  The log is polled every 1000 ms while waiting and every 3000 ms
    otherwise; the former is strictly shorter. *)
Theorem refetchInterval_shorter_while_waiting :
  refetchInterval true = 1000
  /\ refetchInterval false = 3000
  /\ refetchInterval true < refetchInterval false.
Proof. repeat split. Qed.

(* ====================================================================== *)
(** ** The watchdog *)
(* ====================================================================== *)

Lemma rerender_stays_quiet now p log res :
  isWaitingForResponse (state p) = false ->
  waitTimer p = None ->
  isWaitingForResponse (fst res) = false ->
  isWaitingForResponse (state (fst (rerender now p log (waitTimer p) res))) = false
  /\ waitTimer (fst (rerender now p log (waitTimer p) res)) = None.
Proof.
  intros Hw Ht Hr. unfold rerender. cbn [fst state waitTimer].
  rewrite (onLogUpdated_lowers log _ Hr), Hw, Hr, Ht. split; reflexivity.
Qed.

(** Without a new send, a page that is not waiting and has no timer stays
    so: the watchdog cannot fire. *)
Lemma step_stays_quiet now ev p p' cmds :
  isSubmit ev = false ->
  isWaitingForResponse (state p) = false /\ waitTimer p = None ->
  step now ev p = Some (p', cmds) ->
  isWaitingForResponse (state p') = false /\ waitTimer p' = None.
Proof.
  intros Hev [Hw Ht] Hstep.
  destruct ev; try discriminate Hev; cbn [step] in Hstep.
  - page_of Hstep. apply rerender_stays_quiet; [exact Hw | exact Ht | exact Hw].
  - page_of Hstep. apply rerender_stays_quiet; [exact Hw | exact Ht | exact Hw].
  - page_of Hstep. apply rerender_stays_quiet; [exact Hw | exact Ht | reflexivity].
  - page_of Hstep. apply rerender_stays_quiet; [exact Hw | exact Ht | exact Hw].
  - rewrite Ht in Hstep. discriminate.
Qed.

Lemma run_stays_quiet evs : forall p q,
  forallb (fun e => negb (isSubmit (snd e))) evs = true ->
  isWaitingForResponse (state p) = false /\ waitTimer p = None ->
  run evs p = Some q ->
  isWaitingForResponse (state q) = false /\ waitTimer q = None.
Proof.
  induction evs as [|[now ev] evs IH]; simpl; intros p q Hq Hp Hrun.
  - injection Hrun as <-. exact Hp.
  - apply andb_true_iff in Hq as [Hev Hq]. apply negb_true_iff in Hev.
    destruct (step now ev p) as [[p1 c]|] eqn:Hs; [|discriminate].
    exact (IH p1 q Hq (step_stays_quiet now ev p p1 c Hev Hp Hs) Hrun).
Qed.

(** C4.  When the watchdog fires in a reachable page, the page was still
    waiting and the timer was due; the waiting flag becomes false and
    nothing else changes (the pending message, the snapshot, the input and
    the log stay, nothing is issued).  It fires once: until a new send, no
    sequence of other events lets it fire again.  And a new send is not
    blocked by the pending message left behind: typing a non-blank text and
    submitting raises the flag, issues the send and sets a fresh 60 s
    timer; the text is then the pending message, unless the log already
    ends with that very text from the user, in which case the effect that
    follows the send takes it for the echo and nothing is pending. *)
Theorem watchdog_clears_waiting_once p now p' cmds :
  reachable p ->
  step now WatchdogFired p = Some (p', cmds) ->
  isWaitingForResponse (state p) = true
  /\ (exists due, waitTimer p = Some due /\ due <= now)
  /\ isWaitingForResponse (state p') = false
  /\ pendingMessage (state p') = pendingMessage (state p)
  /\ messageCountWhenSentRef (state p') = messageCountWhenSentRef (state p)
  /\ inputMessage (state p') = inputMessage (state p)
  /\ messages p' = messages p
  /\ cmds = []
  /\ (forall evs q t,
        forallb (fun e => negb (isSubmit (snd e))) evs = true ->
        run evs p' = Some q ->
        step t WatchdogFired q = None)
  /\ (forall text t1 t2 p1 c1 p2 c2,
        Js.trim text <> [] ->
        step t1 (Typed text) p' = Some (p1, c1) ->
        step t2 Submit p1 = Some (p2, c2) ->
        pendingMessage (state p2)
          = (if echoes (messages p') (Js.trim text) then None
             else Some (Js.trim text))
        /\ isWaitingForResponse (state p2) = true
        /\ c2 = [Mutate (Js.trim text)]
        /\ waitTimer p2 = Some (t2 + WATCHDOG_MS)).
Proof.
  intros Hreach Hstep.
  destruct (reachable_invariant p Hreach) as [_ Htimer].
  pose proof (reachable_settled p Hreach) as Hs.
  pose proof (step_settled now WatchdogFired p p' cmds Hstep) as Hs'.
  unfold timerTracksWaiting in Htimer.
  destruct (waitTimer p) as [due|] eqn:Hdue;
    [|cbn [step] in Hstep; rewrite Hdue in Hstep; discriminate].
  assert (Hle : due <= now).
  { cbn [step] in Hstep. rewrite Hdue in Hstep.
    destruct (due <=? now) eqn:E; [apply Z.leb_le, E | discriminate]. }
  rewrite (step_WatchdogFired now due p Hs Hdue Hle) in Hstep.
  injection Hstep as <- <-.
  cbn [state messages waitTimer isWaitingForResponse pendingMessage
       messageCountWhenSentRef inputMessage fst onTimeout
       setIsWaitingForResponse].
  split; [exact Htimer|].
  split; [exists due; split; [reflexivity | exact Hle]|].
  do 6 (split; [reflexivity|]).
  split.
  - intros evs q t Hquiet Hrun.
    apply (run_stays_quiet evs _ q Hquiet) in Hrun as [_ Hnone];
      [|split; reflexivity].
    cbn [step]. rewrite Hnone. reflexivity.
  - intros text t1 t2 p1 c1 p2 c2 Htext Htyped Hsubmit.
    rewrite (step_Typed t1 text _ Hs') in Htyped.
    injection Htyped as <- _.
    rewrite step_Submit_sends in Hsubmit by (first [reflexivity | exact Htext]).
    injection Hsubmit as <- <-.
    cbn [state messages waitTimer isWaitingForResponse pendingMessage
         inputMessage fst setInputMessage].
    auto.
Qed.

Lemma watchdog_clears_waiting_once_witness :
  let sent := {| inputMessage := [];
                 isWaitingForResponse := true;
                 pendingMessage := Some (Js.lit "x");
                 messageCountWhenSentRef := 0 |} in
  let p := {| state := sent; messages := []; waitTimer := Some 60001 |} in
  let stalled := {| inputMessage := [];
                    isWaitingForResponse := false;
                    pendingMessage := Some (Js.lit "x");
                    messageCountWhenSentRef := 0 |} in
  let p' := {| state := stalled; messages := []; waitTimer := None |} in
  let typed := {| inputMessage := Js.lit " y ";
                  isWaitingForResponse := false;
                  pendingMessage := Some (Js.lit "x");
                  messageCountWhenSentRef := 0 |} in
  let p1 := {| state := typed; messages := []; waitTimer := None |} in
  let resent := {| inputMessage := [];
                   isWaitingForResponse := true;
                   pendingMessage := Some (Js.lit "y");
                   messageCountWhenSentRef := 0 |} in
  let p2 := {| state := resent; messages := []; waitTimer := Some 130001 |} in
  step 60001 WatchdogFired p = Some (p', [])
  /\ isWaitingForResponse (state p) = true
  /\ isWaitingForResponse (state p') = false
  /\ pendingMessage (state p') = pendingMessage (state p)
  /\ step 120000 WatchdogFired p' = None
  /\ (pendingMessage (state p2) = Some (Js.lit "y")
      /\ isWaitingForResponse (state p2) = true
      /\ [Mutate (Js.lit "y")] = [Mutate (Js.lit "y")]
      /\ waitTimer p2 = Some (70001 + WATCHDOG_MS)).
Proof.
  intros sent p stalled p' typed p1 resent p2.
  assert (Hp : reachable p).
  { apply (run_reachable [(0, Typed (Js.lit "x")); (1, Submit)]
             initialPage p reach_init).
    reflexivity. }
  assert (Hs : step 60001 WatchdogFired p = Some (p', [])) by reflexivity.
  destruct (watchdog_clears_waiting_once p 60001 p' [] Hp Hs)
    as (H1 & _ & H3 & H4 & _ & _ & _ & _ & H9 & H10).
  split; [exact Hs|]. split; [exact H1|]. split; [exact H3|].
  split; [exact H4|].
  split; [apply (H9 [] p' 120000); reflexivity|].
  apply (H10 (Js.lit " y ") 70000 70001 p1 [] p2 [Mutate (Js.lit "y")]).
  - intros E. vm_compute in E. discriminate E.
  - reflexivity.
  - reflexivity.
Defined.

(** The scenarios of the specification, run on the page. *)

Example scenario_echo_then_response :
  let echo := mkMessage user (Js.lit "hello") (Js.lit "2024-01-15T09:30:00Z") in
  let reply := mkMessage (Js.lit "system") (Js.lit "ok") (Js.lit "2024-01-15T09:30:05Z") in
  option_map state (run [(0, Typed (Js.lit "hello")); (1, Submit)] initialPage)
  = Some {| inputMessage := []; isWaitingForResponse := true;
            pendingMessage := Some (Js.lit "hello");
            messageCountWhenSentRef := 0 |}
  /\ option_map state
       (run [(0, Typed (Js.lit "hello")); (1, Submit);
             (1000, LogUpdated [echo])] initialPage)
     = Some {| inputMessage := []; isWaitingForResponse := true;
               pendingMessage := None; messageCountWhenSentRef := 0 |}
  /\ option_map state
       (run [(0, Typed (Js.lit "hello")); (1, Submit);
             (1000, LogUpdated [echo]); (2000, LogUpdated [echo; reply])]
          initialPage)
     = Some initialState.
Proof. repeat split. Qed.

Example scenario_resend_same_text :
  let echo := mkMessage user (Js.lit "x") (Js.lit "2024-01-15T09:30:00Z") in
  option_map state
    (run [(0, Typed (Js.lit "x")); (1, Submit); (1000, LogUpdated [echo]);
          (60001, WatchdogFired)] initialPage)
  = Some {| inputMessage := []; isWaitingForResponse := false;
            pendingMessage := None; messageCountWhenSentRef := 0 |}
  /\ option_map state
       (run [(0, Typed (Js.lit "x")); (1, Submit); (1000, LogUpdated [echo]);
             (60001, WatchdogFired); (70000, Typed (Js.lit "x"));
             (70001, Submit)] initialPage)
     = Some {| inputMessage := []; isWaitingForResponse := true;
               pendingMessage := None; messageCountWhenSentRef := 1 |}.
Proof. repeat split. Qed.

Example scenario_send_fails :
  option_map state
    (run [(0, Typed (Js.lit "x")); (1, Submit); (40, SendFailed)] initialPage)
  = Some initialState.
Proof. reflexivity. Qed.

Example scenario_no_update_ever :
  run [(0, Typed (Js.lit "x")); (1, Submit); (60000, WatchdogFired)]
    initialPage = None
  /\ option_map state
       (run [(0, Typed (Js.lit "x")); (1, Submit); (60001, WatchdogFired)]
          initialPage)
     = Some {| inputMessage := []; isWaitingForResponse := false;
               pendingMessage := Some (Js.lit "x");
               messageCountWhenSentRef := 0 |}
  /\ option_map state
       (run [(0, Typed (Js.lit "x")); (1, Submit); (60001, WatchdogFired);
             (70000, Typed (Js.lit " y ")); (70001, Submit)] initialPage)
     = Some {| inputMessage := []; isWaitingForResponse := true;
               pendingMessage := Some (Js.lit "y");
               messageCountWhenSentRef := 0 |}.
Proof. repeat split. Qed.

(* ====================================================================== *)
(** ** Timestamps *)
(* ====================================================================== *)

Section HostFacts.
Import Timestamp.
Variable DateParse : jsstring -> option Z.
Variable formatTime : Z -> jsstring.

(** The formatter returns normally on every string: neither [new Date]
    nor [toLocaleTimeString] throws, so its [catch] branch never runs. *)
Lemma formatTimestamp_never_throws ts :
  exists s, formatTimestamp DateParse formatTime ts = Normal s.
Proof.
  unfold formatTimestamp, newDate, toLocaleTimeString; simpl.
  destruct (DateParse ts); eexists; reflexivity.
Qed.

(** On a well-formed timestamp the host's rendering is returned. *)
Lemma formatTimestamp_valid ts tv :
  DateParse ts = Some tv ->
  formatTimestamp DateParse formatTime ts = Normal (formatTime tv).
Proof.
  intros H. unfold formatTimestamp, newDate, toLocaleTimeString; simpl.
  rewrite H. reflexivity.
Qed.

(** C7.  On a timestamp the host cannot parse, the formatter returns
    normally with the text "Invalid Date", not the empty string. *)
Theorem formatTimestamp_malformed ts :
  DateParse ts = None ->
  formatTimestamp DateParse formatTime ts = Normal invalidDate
  /\ formatTimestamp DateParse formatTime ts <> Normal [].
Proof.
  intros H. unfold formatTimestamp, newDate, toLocaleTimeString; simpl.
  rewrite H. split; [reflexivity | discriminate].
Qed.

End HostFacts.

Lemma formatTimestamp_malformed_witness :
  Timestamp.formatTimestamp Timestamp.RefHost.DateParse
    Timestamp.RefHost.formatTime (Js.lit "not-a-date")
  = Timestamp.Normal (Js.lit "Invalid Date")
  /\ Timestamp.formatTimestamp Timestamp.RefHost.DateParse
       Timestamp.RefHost.formatTime (Js.lit "not-a-date")
     <> Timestamp.Normal [].
Proof.
  apply (formatTimestamp_malformed Timestamp.RefHost.DateParse
           Timestamp.RefHost.formatTime (Js.lit "not-a-date")).
  reflexivity.
Defined.

Example formatTimestamp_well_formed :
  Timestamp.formatTimestamp Timestamp.RefHost.DateParse
    Timestamp.RefHost.formatTime (Js.lit "2024-01-15T09:30:00Z")
  = Timestamp.Normal (Js.lit "09:30").
Proof. reflexivity. Qed.

(* ====================================================================== *)
(** ** The split ratio *)
(* ====================================================================== *)

(** *** The order of binary64 numbers *)

Module Float64Order.
Import PrimFloat SpecFloat FloatOps FloatAxioms.

Lemma SFcompare_antisym x y c :
  SFcompare x y = Some c -> SFcompare y x = Some (CompOpp c).
Proof.
  destruct x as [sx|sx| |sx mx ex], y as [sy|sy| |sy my ey]; cbn;
    try discriminate;
    try (destruct sx); try (destruct sy); cbn;
    intros H; injection H as <-; try reflexivity;
    rewrite (Z.compare_antisym ex ey);
    destruct (ex ?= ey); cbn; try reflexivity;
    fold (Pos.compare mx my) (Pos.compare my mx);
    rewrite (Pos.compare_antisym mx my);
    destruct (mx ?= my)%positive; reflexivity.
Qed.

Lemma SFcompare_refl x : x <> S754_nan -> SFcompare x x = Some Eq.
Proof.
  destruct x as [s|s| |s m e]; cbn; try congruence; intros _.
  - destruct s; reflexivity.
  - rewrite Z.compare_refl. fold (Pos.compare m m).
    rewrite Pos.compare_refl. destruct s; reflexivity.
Qed.

Lemma SFcompare_None x y :
  SFcompare x y = None -> x = S754_nan \/ y = S754_nan.
Proof.
  destruct x as [sx|sx| |sx mx ex], y as [sy|sy| |sy my ey]; cbn;
    try discriminate; auto.
Qed.

Ltac cases_Z a b :=
  let H := fresh in destruct (Z.compare_spec a b) as [H|H|H].
Ltac cases_P a b :=
  let H := fresh in destruct (Pos.compare_spec a b) as [H|H|H].

Lemma SFleb_trans x y z :
  SFleb x y = true -> SFleb y z = true -> SFleb x z = true.
Proof.
  unfold SFleb.
  destruct x as [sx|sx| |sx mx ex], y as [sy|sy| |sy my ey],
           z as [sz|sz| |sz mz ez]; cbn;
    try discriminate; try reflexivity;
    try (destruct sx); try (destruct sy); try (destruct sz); cbn;
    try discriminate; try reflexivity;
    fold (Pos.compare mx my) (Pos.compare my mz) (Pos.compare mx mz);
    cases_Z ex ey; cases_Z ey ez; cases_Z ex ez; cbn;
    try discriminate; try reflexivity; try lia;
    cases_P mx my; cases_P my mz; cases_P mx mz; cbn;
    try discriminate; try reflexivity; try lia; subst; try lia.
Qed.

Local Open Scope float_scope.

Lemma is_nan_spec x : is_nan x = false <-> Prim2SF x <> S754_nan.
Proof.
  unfold is_nan. rewrite eqb_spec. unfold SFeqb. split.
  - intros H E. rewrite E in H. discriminate.
  - intros H. rewrite (SFcompare_refl _ H). reflexivity.
Qed.

Lemma leb_refl x : is_nan x = false -> (x <=? x) = true.
Proof.
  intros H. apply is_nan_spec in H. rewrite leb_spec. unfold SFleb.
  rewrite (SFcompare_refl _ H). reflexivity.
Qed.

Lemma leb_trans x y z :
  (x <=? y) = true -> (y <=? z) = true -> (x <=? z) = true.
Proof. rewrite !leb_spec. apply SFleb_trans. Qed.

Lemma leb_number x y :
  (x <=? y) = true -> is_nan x = false /\ is_nan y = false.
Proof.
  rewrite leb_spec, !is_nan_spec. unfold SFleb. intros H.
  split; intros E; rewrite E in H;
    [|destruct (Prim2SF x)]; discriminate.
Qed.

Lemma ltb_leb x y : (x <? y) = true -> (x <=? y) = true.
Proof.
  rewrite ltb_spec, leb_spec. unfold SFltb, SFleb.
  destruct (SFcompare _ _) as [[ | | ]|]; congruence.
Qed.

Lemma ltb_false_leb x y :
  is_nan x = false -> is_nan y = false ->
  (x <? y) = false -> (y <=? x) = true.
Proof.
  rewrite !is_nan_spec, ltb_spec, leb_spec. unfold SFltb, SFleb.
  intros Hx Hy.
  destruct (SFcompare (Prim2SF x) (Prim2SF y)) as [c|] eqn:E.
  - rewrite (SFcompare_antisym _ _ _ E). destruct c; cbn; congruence.
  - apply SFcompare_None in E. tauto.
Qed.

Lemma leb_ltb_false x y : (x <=? y) = true -> (y <? x) = false.
Proof.
  rewrite ltb_spec, leb_spec. unfold SFltb, SFleb.
  destruct (SFcompare (Prim2SF x) (Prim2SF y)) as [c|] eqn:E; [|discriminate].
  rewrite (SFcompare_antisym _ _ _ E). destruct c; cbn; congruence.
Qed.

Lemma leb_antisym x y :
  (x <=? y) = true -> (y <=? x) = true -> (x =? y) = true.
Proof.
  rewrite !leb_spec, eqb_spec. unfold SFleb, SFeqb.
  destruct (SFcompare (Prim2SF x) (Prim2SF y)) as [c|] eqn:E; [|discriminate].
  rewrite (SFcompare_antisym _ _ _ E). destruct c; cbn; congruence.
Qed.

End Float64Order.

(** *** The clamp *)

Section Split64Facts.
Import PrimFloat FloatClass Split64.
Local Open Scope float_scope.

(** [Math.min] of two numbers is one of them and lies below both. *)
Lemma Math_min_cases a b :
  isNumber a -> isNumber b ->
  (Math_min a b = a \/ Math_min a b = b)
  /\ le (Math_min a b) a /\ le (Math_min a b) b.
Proof.
  unfold isNumber, le, Math_min. intros Ha Hb. rewrite Ha, Hb. cbn [orb].
  destruct (a <? b) eqn:E1.
  - split; [left; reflexivity|].
    split; [apply Float64Order.leb_refl, Ha | apply Float64Order.ltb_leb, E1].
  - destruct (b <? a) eqn:E2.
    + split; [right; reflexivity|].
      split; [apply Float64Order.ltb_leb, E2 | apply Float64Order.leb_refl, Hb].
    + pose proof (Float64Order.ltb_false_leb a b Ha Hb E1) as Hba.
      pose proof (Float64Order.ltb_false_leb b a Hb Ha E2) as Hab.
      pose proof (Float64Order.leb_refl a Ha) as Haa.
      pose proof (Float64Order.leb_refl b Hb) as Hbb.
      destruct (classify a); auto.
Qed.

(** [Math.max] of two numbers is one of them and lies above both. *)
Lemma Math_max_cases a b :
  isNumber a -> isNumber b ->
  (Math_max a b = a \/ Math_max a b = b)
  /\ le a (Math_max a b) /\ le b (Math_max a b).
Proof.
  unfold isNumber, le, Math_max. intros Ha Hb. rewrite Ha, Hb. cbn [orb].
  destruct (a <? b) eqn:E1.
  - split; [right; reflexivity|].
    split; [apply Float64Order.ltb_leb, E1 | apply Float64Order.leb_refl, Hb].
  - destruct (b <? a) eqn:E2.
    + split; [left; reflexivity|].
      split; [apply Float64Order.leb_refl, Ha | apply Float64Order.ltb_leb, E2].
    + pose proof (Float64Order.ltb_false_leb a b Ha Hb E1) as Hba.
      pose proof (Float64Order.ltb_false_leb b a Hb Ha E2) as Hab.
      pose proof (Float64Order.leb_refl a Ha) as Haa.
      pose proof (Float64Order.leb_refl b Hb) as Hbb.
      destruct (classify a); auto.
Qed.

(** A mouse move over an attached container is the clamp of the raw
    ratio. *)
Lemma handleMouseMove_attached rect clientX splitRatio :
  handleMouseMove (Some rect) clientX splitRatio
  = Math_max (minRatio (width rect))
      (Math_min (maxRatio (width rect)) (rawRatio rect clientX)).
Proof. reflexivity. Qed.

(** With ordered bounds, the clamp lies between them. *)
Lemma clamp_in_range mn mx raw :
  isNumber raw -> le mn mx ->
  le mn (Math_max mn (Math_min mx raw)) /\ le (Math_max mn (Math_min mx raw)) mx.
Proof.
  intros Hraw Hord.
  destruct (Float64Order.leb_number mn mx Hord) as [Hmn Hmx].
  destruct (Math_min_cases mx raw Hmx Hraw) as (_ & Hm1 & _).
  destruct (Float64Order.leb_number _ _ Hm1) as [Hm _].
  destruct (Math_max_cases mn _ Hmn Hm) as ([E | E] & H1 & _);
    (split; [exact H1|]); rewrite E; assumption.
Qed.

(** With crossed bounds, the clamp is the lower bound. *)
Lemma clamp_crossed mn mx raw :
  isNumber raw -> (mx <? mn) = true ->
  Math_max mn (Math_min mx raw) = mn.
Proof.
  intros Hraw Hx.
  pose proof (Float64Order.ltb_leb _ _ Hx) as Hle.
  destruct (Float64Order.leb_number mx mn Hle) as [Hmx Hmn].
  destruct (Math_min_cases mx raw Hmx Hraw) as (_ & Hm1 & _).
  destruct (Float64Order.leb_number _ _ Hm1) as [Hm _].
  pose proof (Float64Order.leb_trans _ _ _ Hm1 Hle) as Hm2.
  unfold Math_max. unfold isNumber in Hmn, Hm. rewrite Hmn, Hm. cbn [orb].
  rewrite (Float64Order.leb_ltb_false _ _ Hm2).
  destruct (Math_min mx raw <? mn) eqn:E; [reflexivity|].
  pose proof (Float64Order.ltb_false_leb _ _ Hm Hmn E) as Hc.
  pose proof (Float64Order.leb_trans _ _ _ Hc Hm1) as Hc'.
  rewrite (Float64Order.leb_ltb_false _ _ Hc') in Hx. discriminate Hx.
Qed.

(** A raw ratio between the bounds passes the clamp. *)
Lemma clamp_inside mn mx raw :
  le mn raw -> le raw mx ->
  numEq (Math_max mn (Math_min mx raw)) raw.
Proof.
  intros H1 H2.
  destruct (Float64Order.leb_number _ _ H1) as [Hmn Hraw].
  destruct (Float64Order.leb_number _ _ H2) as [_ Hmx].
  destruct (Math_min_cases mx raw Hmx Hraw) as (Em & Hm1 & Hm2).
  destruct (Float64Order.leb_number _ _ Hm1) as [Hm _].
  assert (Hrm : le raw (Math_min mx raw)).
  { destruct Em as [-> | ->]; [exact H2 | apply Float64Order.leb_refl, Hraw]. }
  destruct (Math_max_cases mn _ Hmn Hm) as (Er & _ & Hr2).
  apply Float64Order.leb_antisym.
  - destruct Er as [-> | ->]; assumption.
  - exact (Float64Order.leb_trans _ _ _ Hrm Hr2).
Qed.

(** A raw ratio at or below the lower bound is raised to it. *)
Lemma clamp_below mn mx raw :
  le raw mn -> le mn mx ->
  numEq (Math_max mn (Math_min mx raw)) mn.
Proof.
  intros H1 Hord.
  destruct (Float64Order.leb_number _ _ H1) as [Hraw Hmn].
  destruct (Float64Order.leb_number _ _ Hord) as [_ Hmx].
  destruct (Math_min_cases mx raw Hmx Hraw) as (_ & Hm1 & Hm2).
  destruct (Float64Order.leb_number _ _ Hm1) as [Hm _].
  destruct (Math_max_cases mn _ Hmn Hm) as (Er & Hr1 & _).
  apply Float64Order.leb_antisym; [|exact Hr1].
  destruct Er as [-> | ->];
    [apply Float64Order.leb_refl, Hmn
    | exact (Float64Order.leb_trans _ _ _ Hm2 H1)].
Qed.

(** A raw ratio at or above the upper bound is lowered to it. *)
Lemma clamp_above mn mx raw :
  le mx raw -> le mn mx ->
  numEq (Math_max mn (Math_min mx raw)) mx.
Proof.
  intros H1 Hord.
  destruct (Float64Order.leb_number _ _ H1) as [Hmx Hraw].
  destruct (clamp_in_range mn mx raw Hraw Hord) as [_ Hr].
  destruct (Float64Order.leb_number _ _ Hord) as [Hmn _].
  destruct (Math_min_cases mx raw Hmx Hraw) as (Em & Hm1 & _).
  destruct (Float64Order.leb_number _ _ Hm1) as [Hm _].
  destruct (Math_max_cases mn _ Hmn Hm) as (_ & _ & Hr2).
  apply Float64Order.leb_antisym; [exact Hr|].
  apply Float64Order.leb_trans with (Math_min mx raw); [|exact Hr2].
  destruct Em as [-> | ->]; [apply Float64Order.leb_refl, Hmx | exact H1].
Qed.

(** The clamp is monotone in the raw ratio. *)
Lemma clamp_monotone mn mx raw1 raw2 :
  isNumber mn -> isNumber mx ->
  le raw2 raw1 ->
  le (Math_max mn (Math_min mx raw2)) (Math_max mn (Math_min mx raw1)).
Proof.
  intros Hmn Hmx H.
  destruct (Float64Order.leb_number _ _ H) as [H2 H1].
  destruct (Math_min_cases mx raw1 Hmx H1) as (E1 & Ha1 & _).
  destruct (Math_min_cases mx raw2 Hmx H2) as (_ & Ha2 & Hb2).
  destruct (Float64Order.leb_number _ _ Ha1) as [Hm1 _].
  destruct (Float64Order.leb_number _ _ Ha2) as [Hm2 _].
  assert (Hm : le (Math_min mx raw2) (Math_min mx raw1)).
  { destruct E1 as [-> | ->];
      [exact Ha2 | exact (Float64Order.leb_trans _ _ _ Hb2 H)]. }
  destruct (Math_max_cases mn _ Hmn Hm1) as (_ & Hc1 & Hd1).
  destruct (Math_max_cases mn _ Hmn Hm2) as ([-> | ->] & _ & _);
    [exact Hc1 | exact (Float64Order.leb_trans _ _ _ Hm Hd1)].
Qed.

(** The bounds are ordered for every container width from 640 px to 8192
    px in steps of 1/64 px (the integer widths among them), and crossed for
    every integer width from 1 px to 639 px. *)
Lemma ratio_bounds_by_width :
  forWidths (fun w => minRatio w <=? maxRatio w)
    (Z.to_nat 483329) 640 0.015625 = true
  /\ forWidths (fun w => maxRatio w <? minRatio w) (Z.to_nat 639) 1 1 = true.
Proof. split; vm_compute; reflexivity. Qed.

(** C10 (as stated, refuted).  A drag in a container 500 px wide, pointer
    in the middle (250 px from the left edge): the bounds are
    [320 / 500 = 0.64] and [1 - 0.64 = 0.36], the raw ratio is 0.5, and the
    new ratio is the lower bound 0.64.  It is not in the interval: it is
    above the upper bound. *)
Lemma handleMouseMove_not_always_clamped :
  let newRatio := handleMouseMove (Some (mkRect 0 500)) 250 0.5 in
  rawRatio (mkRect 0 500) 250 = 0.5
  /\ newRatio = minRatio 500
  /\ (maxRatio 500 <? newRatio) = true
  /\ ~ (le (minRatio 500) newRatio /\ le newRatio (maxRatio 500)).
Proof.
  unfold le. repeat split; try (vm_compute; reflexivity).
  intros [_ H]. vm_compute in H. discriminate H.
Qed.

(** From 640 px on the ratio is within its bounds, but its share of the
    container, as a product in binary64, can fall just short of 320: at
    646 px with the pointer on the left edge, what the upper bound leaves
    is 319.99999999999994; at 1077 px with the pointer on the right edge,
    the lower bound's share is below 320 as well. *)
Example share_can_fall_short :
  let leftmost := handleMouseMove (Some (mkRect 0 646)) 0 0.5 in
  let rightmost := handleMouseMove (Some (mkRect 0 1077)) 1077 0.5 in
  leftmost = maxRatio 646
  /\ (share (1 - leftmost) 646 <? MIN_PANEL_WIDTH) = true
  /\ rightmost = minRatio 1077
  /\ (share rightmost 1077 <? MIN_PANEL_WIDTH) = true.
Proof. repeat split. Qed.

(** C10 (amended).  A mouse move over an attached container whose raw ratio
    [1 - mouseX / containerWidth] is a number gives a ratio between
    [MIN_PANEL_WIDTH / containerWidth] and
    [1 - MIN_PANEL_WIDTH / containerWidth] whenever these bounds are ordered
    (they are from 640 px on, see [ratio_bounds_by_width]), and gives
    the lower bound, which is then above the upper one, when they are
    crossed.  Nothing is said of pixels: the product of the ratio and the
    width is rounded (see [share_can_fall_short]), and the panels' least
    width is a matter of the page's style. *)
Theorem handleMouseMove_clamped rect clientX splitRatio :
  isNumber (rawRatio rect clientX) ->
  (le (minRatio (width rect)) (maxRatio (width rect)) ->
   le (minRatio (width rect)) (handleMouseMove (Some rect) clientX splitRatio)
   /\ le (handleMouseMove (Some rect) clientX splitRatio) (maxRatio (width rect)))
  /\ ((maxRatio (width rect) <? minRatio (width rect)) = true ->
      handleMouseMove (Some rect) clientX splitRatio = minRatio (width rect)).
Proof.
  intros Hraw. rewrite handleMouseMove_attached. split.
  - apply clamp_in_range, Hraw.
  - apply clamp_crossed, Hraw.
Qed.

Lemma handleMouseMove_clamped_witness :
  let wide := mkRect 16 1296 in
  let narrow := mkRect 0 500 in
  (le (minRatio 1296) (handleMouseMove (Some wide) 116 0.5)
   /\ le (handleMouseMove (Some wide) 116 0.5) (maxRatio 1296))
  /\ handleMouseMove (Some narrow) 250 0.5 = minRatio 500.
Proof.
  intros wide narrow. split.
  - apply (proj1 (handleMouseMove_clamped wide 116 0.5 eq_refl)). reflexivity.
  - apply (proj2 (handleMouseMove_clamped narrow 250 0.5 eq_refl)). reflexivity.
Defined.

Example handleMouseMove_samples :
  handleMouseMove (Some (mkRect 0 1280)) 0 0.5 = 0.75
  /\ handleMouseMove (Some (mkRect 0 1280)) 640 0.5 = 0.5
  /\ handleMouseMove (Some (mkRect 0 1280)) 1280 0.5 = 0.25
  /\ handleMouseMove None 1280 0.5 = 0.5
  /\ is_nan (handleMouseMove (Some (mkRect 0 0)) 0 0.5) = true.
Proof. repeat split. Qed.

End Split64Facts.

(* ====================================================================== *)
(** ** More on the reconciler *)
(* ====================================================================== *)

(** X1.  One run of the response-detection effect reaches a fixed point in
    every state: the run React schedules because the effect changed its own
    dependencies changes nothing more. *)
Theorem onLogUpdated_settles_in_one_run log st :
  onLogUpdated log (fst (onLogUpdated log st))
  = (fst (onLogUpdated log st), []).
Proof.
  destruct (Js.lastOf log) as [m|] eqn:E.
  - rewrite (onLogUpdated_guards log st m E). cbn [fst].
    rewrite (onLogUpdated_guards log _ m E).
    destruct st as [i w pm c].
    unfold responseGuard, echoGuard.
    cbn [isWaitingForResponse pendingMessage messageCountWhenSentRef inputMessage].
    destruct (w && negb (Js.eqb (agent m) user)
              && (Z.of_nat (List.length log) >? c)) eqn:R.
    + reflexivity.
    + rewrite R. cbn [orb].
      destruct (Js.truthy_opt pm && Js.eqb (agent m) user && Js.eqb_opt (content m) pm) eqn:G.
      * reflexivity.
      * rewrite G. reflexivity.
  - apply JsFacts.lastOf_None in E.
    rewrite !(onLogUpdated_empty log _ E). reflexivity.
Qed.

(** X2.  A poll whose log is not longer than the snapshot taken at send
    time never ends the wait, whatever its last entry: the waiting flag and
    the snapshot stay as they are. *)
Theorem stale_poll_keeps_waiting log st :
  Z.of_nat (List.length log) <= messageCountWhenSentRef st ->
  isWaitingForResponse (fst (onLogUpdated log st)) = isWaitingForResponse st
  /\ messageCountWhenSentRef (fst (onLogUpdated log st))
     = messageCountWhenSentRef st.
Proof.
  intros Hlen. destruct (Js.lastOf log) as [m|] eqn:E.
  - rewrite (onLogUpdated_guards log st m E).
    assert (G : responseGuard log m st = false).
    { unfold responseGuard.
      replace (Z.of_nat (List.length log) >? messageCountWhenSentRef st)
        with false by (symmetry; rewrite Z.gtb_ltb; apply Z.ltb_ge; exact Hlen).
      apply andb_false_r. }
    rewrite G. split; reflexivity.
  - apply JsFacts.lastOf_None in E.
    rewrite (onLogUpdated_empty log st E). split; reflexivity.
Qed.

Lemma stale_poll_keeps_waiting_witness :
  let st := {| inputMessage := [];
               isWaitingForResponse := true;
               pendingMessage := Some (Js.lit "hello");
               messageCountWhenSentRef := 1 |} in
  let log := [mkMessage (Js.lit "system") (Js.lit "welcome") []] in
  isWaitingForResponse (fst (onLogUpdated log st)) = isWaitingForResponse st
  /\ messageCountWhenSentRef (fst (onLogUpdated log st))
     = messageCountWhenSentRef st.
Proof.
  intros st log. apply (stale_poll_keeps_waiting log st). simpl. lia.
Defined.

Lemma onLogUpdated_snapshot log st :
  (-1 <= messageCountWhenSentRef st
   /\ (messageCountWhenSentRef st = -1 ->
       isWaitingForResponse st = false /\ pendingMessage st = None)) ->
  -1 <= messageCountWhenSentRef (fst (onLogUpdated log st))
  /\ (messageCountWhenSentRef (fst (onLogUpdated log st)) = -1 ->
      isWaitingForResponse (fst (onLogUpdated log st)) = false
      /\ pendingMessage (fst (onLogUpdated log st)) = None).
Proof.
  intros [Hlo Hidle].
  destruct (Js.lastOf log) as [m|] eqn:E.
  - rewrite (onLogUpdated_guards log st m E). cbn.
    destruct (responseGuard log m st); cbn; [split; [lia | auto]|].
    split; [exact Hlo|]. intros H. destruct (Hidle H) as [Hw Hp].
    split; [exact Hw|]. destruct (echoGuard m st); auto.
  - apply JsFacts.lastOf_None in E.
    rewrite (onLogUpdated_empty log st E). cbn. auto.
Qed.

Lemma step_snapshot now ev p p' cmds :
  step now ev p = Some (p', cmds) ->
  (-1 <= messageCountWhenSentRef (state p)
   /\ (messageCountWhenSentRef (state p) = -1 ->
       isWaitingForResponse (state p) = false
       /\ pendingMessage (state p) = None)) ->
  -1 <= messageCountWhenSentRef (state p')
  /\ (messageCountWhenSentRef (state p') = -1 ->
      isWaitingForResponse (state p') = false
      /\ pendingMessage (state p') = None).
Proof.
  intros Hstep [Hlo Hidle].
  destruct ev; cbn [step] in Hstep.
  - page_of Hstep. unfold rerender. cbn [fst state].
    apply onLogUpdated_snapshot. cbn. auto.
  - page_of Hstep. unfold rerender. cbn [fst state].
    apply onLogUpdated_snapshot.
    destruct (handleSendMessage_cases (messages p) (state p))
      as [-> | (_ & _ & ->)]; cbn; [auto|].
    split; [lia | intros H; lia].
  - page_of Hstep. unfold rerender. cbn [fst state].
    apply onLogUpdated_snapshot. cbn. auto.
  - page_of Hstep. unfold rerender. cbn [fst state].
    apply onLogUpdated_snapshot. cbn. split; [lia | auto].
  - page_of Hstep. unfold rerender. cbn [fst state].
    apply onLogUpdated_snapshot. cbn. auto.
  - destruct (waitTimer p); [|discriminate].
    destruct (_ <=? now); [|discriminate].
    page_of Hstep. unfold rerender. cbn [fst state].
    apply onLogUpdated_snapshot. cbn. split; [exact Hlo|].
    intros H. destruct (Hidle H) as [_ Hp]. auto.
Qed.

(** X3.  In every reachable page the snapshot is -1 or a log length; it is
    -1 only when the reconciler is idle (not waiting, nothing pending), so
    while waiting the snapshot is the length recorded by the send. *)
Theorem snapshot_tracks_outstanding_send p :
  reachable p ->
  -1 <= messageCountWhenSentRef (state p)
  /\ (messageCountWhenSentRef (state p) = -1 ->
      isWaitingForResponse (state p) = false
      /\ pendingMessage (state p) = None)
  /\ (isWaitingForResponse (state p) = true ->
      0 <= messageCountWhenSentRef (state p)).
Proof.
  intros Hreach.
  assert (H : -1 <= messageCountWhenSentRef (state p)
              /\ (messageCountWhenSentRef (state p) = -1 ->
                  isWaitingForResponse (state p) = false
                  /\ pendingMessage (state p) = None)).
  { induction Hreach as [|p now ev p' cmds _ IH Hstep].
    - cbn. auto with zarith.
    - exact (step_snapshot now ev p p' cmds Hstep IH). }
  destruct H as [Hlo Hidle]. split; [exact Hlo | split; [exact Hidle|]].
  intros Hw.
  destruct (Z.eq_dec (messageCountWhenSentRef (state p)) (-1)) as [E|E].
  - destruct (Hidle E) as [Hf _]. congruence.
  - lia.
Qed.

Lemma snapshot_tracks_outstanding_send_witness :
  let p := {| state := {| inputMessage := [];
                          isWaitingForResponse := true;
                          pendingMessage := Some (Js.lit "hello");
                          messageCountWhenSentRef := 0 |};
              messages := [];
              waitTimer := Some 60001 |} in
  -1 <= messageCountWhenSentRef (state p)
  /\ (messageCountWhenSentRef (state p) = -1 ->
      isWaitingForResponse (state p) = false
      /\ pendingMessage (state p) = None)
  /\ (isWaitingForResponse (state p) = true ->
      0 <= messageCountWhenSentRef (state p)).
Proof.
  intros p. apply (snapshot_tracks_outstanding_send p).
  apply (run_reachable [(0, Typed (Js.lit "hello")); (1, Submit)]
           initialPage p reach_init).
  reflexivity.
Defined.

(** X4.  In every reachable page a watchdog timer is set exactly while the
    page is waiting: no wait is left without a watchdog and no timer
    outlives the wait it guards, so the watchdog can fire (at some instant)
    exactly in waiting pages. *)
Theorem watchdog_set_iff_waiting p :
  reachable p ->
  (isWaitingForResponse (state p) = true <-> waitTimer p <> None)
  /\ (isWaitingForResponse (state p) = true <->
      exists now, step now WatchdogFired p <> None).
Proof.
  intros Hreach.
  destruct (reachable_invariant p Hreach) as [_ Ht].
  unfold timerTracksWaiting in Ht.
  split.
  - rewrite Ht. destruct (waitTimer p); split; congruence.
  - rewrite Ht. cbn [step]. destruct (waitTimer p) as [due|].
    + split; [intros _ | reflexivity].
      exists due. rewrite Z.leb_refl. discriminate.
    + split; [discriminate | intros [now H]; congruence].
Qed.

Lemma watchdog_set_iff_waiting_witness :
  let p := {| state := {| inputMessage := [];
                          isWaitingForResponse := true;
                          pendingMessage := Some (Js.lit "hello");
                          messageCountWhenSentRef := 0 |};
              messages := [];
              waitTimer := Some 60001 |} in
  (isWaitingForResponse (state p) = true <-> waitTimer p <> None)
  /\ (isWaitingForResponse (state p) = true <->
      exists now, step now WatchdogFired p <> None).
Proof.
  intros p. apply (watchdog_set_iff_waiting p).
  apply (run_reachable [(0, Typed (Js.lit "hello")); (1, Submit)]
           initialPage p reach_init).
  reflexivity.
Defined.

(** X5.  In every reachable page the pending message, when there is one,
    is a non-empty text without white space at either end: the pending
    bubble never shows a blank or padded message. *)
Theorem pending_message_is_trimmed p m :
  reachable p ->
  pendingMessage (state p) = Some m ->
  m <> [] /\ trimmed m
  /\ Js.headRejected Js.isWhiteSpace m
  /\ Js.headRejected Js.isWhiteSpace (rev m).
Proof.
  intros Hreach Hm.
  destruct (reachable_invariant p Hreach) as [Hp _].
  destruct (Hp m Hm) as [Hne Htrim].
  split; [exact Hne | split; [exact Htrim|]].
  split.
  - rewrite <- Htrim. unfold Js.trim.
    rewrite <- JsFacts.trimStart_trimEnd by apply JsFacts.dropWhile_head.
    apply JsFacts.dropWhile_head.
  - rewrite <- Htrim. unfold Js.trim, Js.trimEnd. rewrite rev_involutive.
    apply JsFacts.dropWhile_head.
Qed.

Lemma pending_message_is_trimmed_witness :
  let p := {| state := {| inputMessage := [];
                          isWaitingForResponse := true;
                          pendingMessage := Some (Js.lit "hello");
                          messageCountWhenSentRef := 0 |};
              messages := [];
              waitTimer := Some 60001 |} in
  Js.lit "hello" <> [] /\ trimmed (Js.lit "hello")
  /\ Js.headRejected Js.isWhiteSpace (Js.lit "hello")
  /\ Js.headRejected Js.isWhiteSpace (rev (Js.lit "hello")).
Proof.
  intros p. apply (pending_message_is_trimmed p (Js.lit "hello")).
  - apply (run_reachable [(0, Typed (Js.lit "  hello ")); (1, Submit)]
             initialPage p reach_init).
    reflexivity.
  - reflexivity.
Defined.

Lemma rerender_keeps_deadline now p log res :
  (isWaitingForResponse (fst res) = true ->
   isWaitingForResponse (state p) = true) ->
  waitTimer (fst (rerender now p log (waitTimer p) res)) = waitTimer p
  \/ waitTimer (fst (rerender now p log (waitTimer p) res)) = None.
Proof.
  intros H. unfold rerender. cbn [fst waitTimer].
  pose proof (onLogUpdated_lowers log (fst res)) as Hl.
  unfold watchdogEffect.
  destruct (isWaitingForResponse (fst (onLogUpdated log (fst res))));
    destruct (isWaitingForResponse (fst res));
    destruct (isWaitingForResponse (state p)); cbn; auto;
    try (discriminate (H eq_refl)); discriminate (Hl eq_refl).
Qed.

(** An event other than a send never sets or postpones the watchdog: the
    timer is left as it is or cleared. *)
Lemma step_keeps_deadline now ev p p' cmds :
  isSubmit ev = false ->
  timerTracksWaiting p ->
  step now ev p = Some (p', cmds) ->
  waitTimer p' = waitTimer p \/ waitTimer p' = None.
Proof.
  intros Hev Ht Hstep. unfold timerTracksWaiting in Ht.
  destruct ev; try discriminate Hev; cbn [step] in Hstep.
  - page_of Hstep. apply rerender_keeps_deadline. auto.
  - page_of Hstep. apply rerender_keeps_deadline. auto.
  - page_of Hstep. apply rerender_keeps_deadline. discriminate.
  - page_of Hstep. apply rerender_keeps_deadline. auto.
  - destruct (waitTimer p) as [due|]; [|discriminate].
    destruct (due <=? now); [|discriminate].
    page_of Hstep. right. unfold rerender.
    cbn [fst waitTimer onTimeout setIsWaitingForResponse isWaitingForResponse].
    rewrite onLogUpdated_lowers by reflexivity.
    rewrite watchdogEffect_same.
    destruct (watchdogEffect_down now (isWaitingForResponse (state p)) None)
      as [-> | ->]; reflexivity.
Qed.

Lemma run_keeps_deadline evs : forall p q,
  forallb (fun e => negb (isSubmit (snd e))) evs = true ->
  reachable p ->
  run evs p = Some q ->
  waitTimer q = waitTimer p \/ waitTimer q = None.
Proof.
  induction evs as [|[now ev] evs IH]; simpl; intros p q Hq Hp Hrun.
  - injection Hrun as <-. auto.
  - apply andb_true_iff in Hq as [Hev Hq]. apply negb_true_iff in Hev.
    destruct (step now ev p) as [[p1 c]|] eqn:Hs; [|discriminate].
    destruct (reachable_invariant p Hp) as [_ Ht].
    destruct (step_keeps_deadline now ev p p1 c Hev Ht Hs) as [E | E];
      destruct (IH p1 q Hq (reach_step p now ev p1 c Hp Hs) Hrun) as [E' | E'];
      rewrite E'; rewrite ?E; auto.
Qed.

(** X6.  The watchdog set by a send cannot fire earlier than 60 s after
    that send, whatever happens in between short of a new send: an echo, a
    stale poll or typing neither restarts nor shortens the window. *)
Theorem watchdog_not_before_60s p t p1 c1 evs q t' q' c' :
  reachable p ->
  isWaitingForResponse (state p) = false ->
  Js.trim (inputMessage (state p)) <> [] ->
  step t Submit p = Some (p1, c1) ->
  forallb (fun e => negb (isSubmit (snd e))) evs = true ->
  run evs p1 = Some q ->
  step t' WatchdogFired q = Some (q', c') ->
  t + 60000 <= t'.
Proof.
  intros Hreach Hw Hin Hsubmit Hquiet Hrun Hfire.
  assert (Hp1 : reachable p1) by exact (reach_step p t Submit p1 c1 Hreach Hsubmit).
  rewrite (step_Submit_sends t p Hw Hin) in Hsubmit.
  injection Hsubmit as <- _.
  cbn [step] in Hfire.
  destruct (run_keeps_deadline evs _ q Hquiet Hp1 Hrun) as [E | E];
    rewrite E in Hfire; cbn [waitTimer] in Hfire; [|discriminate].
  destruct (t + 60000 <=? t') eqn:Hle; [|discriminate].
  apply Z.leb_le, Hle.
Qed.

Lemma watchdog_not_before_60s_witness : 1000 + 60000 <= 61000.
Proof.
  pose (echo := mkMessage user (Js.lit "hello") []).
  pose (p := {| state := {| inputMessage := Js.lit "hello";
                            isWaitingForResponse := false;
                            pendingMessage := None;
                            messageCountWhenSentRef := -1 |};
                messages := [];
                waitTimer := None |}).
  pose (p1 := {| state := {| inputMessage := [];
                             isWaitingForResponse := true;
                             pendingMessage := Some (Js.lit "hello");
                             messageCountWhenSentRef := 0 |};
                 messages := [];
                 waitTimer := Some 61000 |}).
  pose (q := {| state := {| inputMessage := [];
                            isWaitingForResponse := true;
                            pendingMessage := None;
                            messageCountWhenSentRef := 0 |};
                messages := [echo];
                waitTimer := Some 61000 |}).
  pose (q' := {| state := {| inputMessage := [];
                             isWaitingForResponse := false;
                             pendingMessage := None;
                             messageCountWhenSentRef := 0 |};
                 messages := [echo];
                 waitTimer := None |}).
  apply (watchdog_not_before_60s p 1000 p1 [Mutate (Js.lit "hello")]
           [(2000, LogUpdated [echo])] q 61000 q' []).
  - apply (run_reachable [(0, Typed (Js.lit "hello"))] initialPage p reach_init).
    reflexivity.
  - reflexivity.
  - intros E. vm_compute in E. discriminate E.
  - reflexivity.
  - reflexivity.
  - reflexivity.
  - reflexivity.
Defined.

(** X7.  A normal exchange brings the page back to idle: from a reachable
    page that is not waiting, typing a non-blank text, submitting it and
    then polling any log that is longer than the one at send time and ends
    with a non-user entry leaves the reconciliation state at its mount
    value, the input empty and no watchdog set. *)
Theorem exchange_returns_to_idle p text log reply t0 t1 t2 :
  reachable p ->
  isWaitingForResponse (state p) = false ->
  Js.trim text <> [] ->
  Js.lastOf log = Some reply ->
  agent reply <> user ->
  (List.length (messages p) < List.length log)%nat ->
  run [(t0, Typed text); (t1, Submit); (t2, LogUpdated log)] p
  = Some {| state := initialState; messages := log; waitTimer := None |}.
Proof.
  intros Hreach Hw Htext Hlast Hagent Hlen.
  pose proof (reachable_settled p Hreach) as Hs.
  cbn [run].
  rewrite (step_Typed t0 text p Hs).
  rewrite step_Submit_sends by (first [exact Hw | exact Htext]).
  rewrite step_LogUpdated.
  cbn [state messages waitTimer fst setInputMessage inputMessage
       isWaitingForResponse].
  rewrite (onLogUpdated_guards log _ reply Hlast).
  assert (G : forall pm,
            responseGuard log reply
              {| inputMessage := [];
                 isWaitingForResponse := true;
                 pendingMessage := pm;
                 messageCountWhenSentRef := Z.of_nat (List.length (messages p)) |}
            = true).
  { intros pm. unfold responseGuard. apply JsFacts.eqb_neq in Hagent.
    rewrite Hagent. cbn [isWaitingForResponse messageCountWhenSentRef negb andb].
    apply Z.gtb_lt. lia. }
  rewrite G. reflexivity.
Qed.

Lemma exchange_returns_to_idle_witness :
  let echo := mkMessage user (Js.lit "hello") [] in
  let reply := mkMessage (Js.lit "journal_writing") (Js.lit "hi") [] in
  run [(0, Typed (Js.lit " hello")); (5, Submit); (3000, LogUpdated [echo; reply])]
    initialPage
  = Some {| state := initialState; messages := [echo; reply]; waitTimer := None |}.
Proof.
  intros echo reply.
  apply (exchange_returns_to_idle initialPage (Js.lit " hello") [echo; reply] reply 0 5 3000).
  - exact reach_init.
  - reflexivity.
  - intros E. vm_compute in E. discriminate E.
  - reflexivity.
  - intros E. vm_compute in E. discriminate E.
  - simpl. lia.
Defined.

(* ====================================================================== *)
(** ** The chat form *)
(* ====================================================================== *)

(** X8.  The keyboard handler sends nothing unless the key is a plain
    Enter (no Shift, no Ctrl), the user is authenticated and the page is
    not waiting; when it sends, it sends the trimmed input once. *)
Theorem onKeyDown_sends_only_on_plain_enter e authStatus log r :
  onKeyDown e authStatus log r = (r, [])
  \/ (key e = Js.lit "Enter" /\ shiftKey e = false /\ ctrlKey e = false
      /\ isAuthenticated authStatus = true
      /\ isWaitingForResponse r = false
      /\ Js.trim (inputMessage r) <> []
      /\ onKeyDown e authStatus log r = handleSendMessage log r
      /\ snd (onKeyDown e authStatus log r) = [Mutate (Js.trim (inputMessage r))]).
Proof.
  unfold onKeyDown.
  destruct (Js.eqb (key e) (Js.lit "Enter")) eqn:Ek; [|left; reflexivity].
  destruct (shiftKey e) eqn:Es; [left; reflexivity|].
  destruct (ctrlKey e) eqn:Ec; [left; reflexivity|].
  cbn [negb andb].
  destruct (Js.truthy (Js.trim (inputMessage r))) eqn:Et; [|left; reflexivity].
  destruct (isWaitingForResponse r) eqn:Ew; [left; reflexivity|].
  destruct (isAuthenticated authStatus) eqn:Ea; [|left; reflexivity].
  cbn [negb andb]. right.
  apply JsFacts.eqb_eq in Ek. apply JsFacts.truthy_true in Et.
  repeat (split; [assumption || reflexivity|]).
  rewrite (handleSendMessage_sends log r Et Ew). reflexivity.
Qed.

(** X9.  Whenever the submit button is enabled, submitting goes through:
    the handler's early return is never taken, the trimmed input is sent,
    and the user is authenticated with no send in flight. *)
Theorem enabled_submit_always_sends r mutationPending authStatus log :
  submitDisabled r mutationPending authStatus = false ->
  snd (handleSendMessage log r) = [Mutate (Js.trim (inputMessage r))]
  /\ pendingMessage (fst (handleSendMessage log r))
     = Some (Js.trim (inputMessage r))
  /\ isAuthenticated authStatus = true
  /\ mutationPending = false
  /\ textareaDisabled r authStatus = false.
Proof.
  unfold submitDisabled, textareaDisabled. intros H.
  apply orb_false_iff in H as [H Ha]. apply orb_false_iff in H as [H Hw].
  apply orb_false_iff in H as [Ht Hm].
  apply negb_false_iff in Ht. apply negb_false_iff in Ha.
  apply JsFacts.truthy_true in Ht.
  rewrite (handleSendMessage_sends log r Ht Hw), Hw, Ha. auto.
Qed.

Lemma enabled_submit_always_sends_witness :
  let r := {| inputMessage := Js.lit " hello ";
              isWaitingForResponse := false;
              pendingMessage := None;
              messageCountWhenSentRef := -1 |} in
  let authStatus := Some {| authenticated := true |} in
  snd (handleSendMessage [] r) = [Mutate (Js.trim (inputMessage r))]
  /\ pendingMessage (fst (handleSendMessage [] r))
     = Some (Js.trim (inputMessage r))
  /\ isAuthenticated authStatus = true
  /\ false = false
  /\ textareaDisabled r authStatus = false.
Proof.
  intros r authStatus.
  apply (enabled_submit_always_sends r false authStatus []). reflexivity.
Defined.

(* ====================================================================== *)
(** ** More on the split ratio *)
(* ====================================================================== *)

Section Split64More.
Import PrimFloat FloatClass Split64.
Local Open Scope float_scope.

(** X10.  Over an attached container with ordered bounds the divider
    follows the pointer: a raw ratio [1 - mouseX / containerWidth] between
    the bounds is the new ratio; one at or below the lower bound gives the
    lower bound, one at or above the upper bound the upper bound (equal as
    numbers, that is up to the sign of zero). *)
Theorem handleMouseMove_follows_pointer rect clientX splitRatio :
  le (minRatio (width rect)) (maxRatio (width rect)) ->
  (le (minRatio (width rect)) (rawRatio rect clientX) ->
   le (rawRatio rect clientX) (maxRatio (width rect)) ->
   numEq (handleMouseMove (Some rect) clientX splitRatio) (rawRatio rect clientX))
  /\ (le (rawRatio rect clientX) (minRatio (width rect)) ->
      numEq (handleMouseMove (Some rect) clientX splitRatio) (minRatio (width rect)))
  /\ (le (maxRatio (width rect)) (rawRatio rect clientX) ->
      numEq (handleMouseMove (Some rect) clientX splitRatio) (maxRatio (width rect))).
Proof.
  intros Hord. rewrite handleMouseMove_attached. split; [|split].
  - apply clamp_inside.
  - intros H. apply clamp_below; assumption.
  - intros H. apply clamp_above; assumption.
Qed.

Lemma handleMouseMove_follows_pointer_witness :
  let rect := mkRect 16 1280 in
  numEq (handleMouseMove (Some rect) 656 0.5) (rawRatio rect 656)
  /\ rawRatio rect 656 = 0.5
  /\ numEq (handleMouseMove (Some rect) 1200 0.5) (minRatio 1280)
  /\ minRatio 1280 = 0.25
  /\ numEq (handleMouseMove (Some rect) 100 0.5) (maxRatio 1280)
  /\ maxRatio 1280 = 0.75.
Proof.
  intros rect.
  assert (Hord : le (minRatio (width rect)) (maxRatio (width rect)))
    by reflexivity.
  split; [|split; [reflexivity | split; [|split; [reflexivity | split; [|reflexivity]]]]].
  - apply (proj1 (handleMouseMove_follows_pointer rect 656 0.5 Hord));
      reflexivity.
  - apply (proj1 (proj2 (handleMouseMove_follows_pointer rect 1200 0.5 Hord))).
    reflexivity.
  - apply (proj2 (proj2 (handleMouseMove_follows_pointer rect 100 0.5 Hord))).
    reflexivity.
Defined.

(** X11.  Over an attached container whose bounds are crossed (every
    integer width from 1 px to 639 px, see [ratio_bounds_by_width]) the
    pointer has no effect: any two mouse moves with a raw ratio that is a
    number give the same ratio, [MIN_PANEL_WIDTH / containerWidth], which is
    above the upper bound. *)
Theorem handleMouseMove_narrow_container_stuck rect clientX1 clientX2 splitRatio :
  (maxRatio (width rect) <? minRatio (width rect)) = true ->
  isNumber (rawRatio rect clientX1) ->
  isNumber (rawRatio rect clientX2) ->
  handleMouseMove (Some rect) clientX1 splitRatio = MIN_PANEL_WIDTH / width rect
  /\ handleMouseMove (Some rect) clientX2 splitRatio
     = handleMouseMove (Some rect) clientX1 splitRatio
  /\ ~ le (handleMouseMove (Some rect) clientX1 splitRatio) (maxRatio (width rect)).
Proof.
  intros Hx H1 H2. rewrite !handleMouseMove_attached.
  rewrite !(clamp_crossed _ _ _ H1 Hx), !(clamp_crossed _ _ _ H2 Hx).
  split; [reflexivity | split; [reflexivity|]].
  unfold le. intros H.
  rewrite (Float64Order.leb_ltb_false _ _ H) in Hx. discriminate Hx.
Qed.

Lemma handleMouseMove_narrow_container_stuck_witness :
  let rect := mkRect 0 500 in
  handleMouseMove (Some rect) 100 0.5 = MIN_PANEL_WIDTH / 500
  /\ handleMouseMove (Some rect) 400 0.5 = handleMouseMove (Some rect) 100 0.5
  /\ ~ le (handleMouseMove (Some rect) 100 0.5) (maxRatio 500).
Proof.
  intros rect.
  apply (handleMouseMove_narrow_container_stuck rect 100 400 0.5); reflexivity.
Defined.

End Split64More.

(** *** The order of the clamp, in exact arithmetic *)

Section SplitOrder.
Import Split.
Local Open Scope Q_scope.









End SplitOrder.


(* ====================================================================== *)
(** ** Artifact update notifications *)
(* ====================================================================== *)

Section ArtifactFacts.
Import Artifact.

Lemma increasingWithin_snoc lo hi l ph :
  lo <= hi ->
  increasingWithin lo hi l ->
  increasingWithin lo (hi + 1) (l ++ [{| id := hi + 1; phase := ph |}]).
Proof.
  revert lo. induction l as [|u l IH]; intros lo Hle H; cbn in *.
  - repeat split; lia.
  - destruct H as (H1 & H2 & H3). repeat split; try lia.
    apply IH; [exact H2 | exact H3].
Qed.

Lemma increasingWithin_bounds lo hi l u :
  increasingWithin lo hi l -> In u l -> lo < id u <= hi.
Proof.
  revert lo. induction l as [|v l IH]; intros lo H Hin; cbn in *; [contradiction|].
  destruct H as (H1 & H2 & H3). destruct Hin as [<- | Hin]; [lia|].
  specialize (IH (id v) H3 Hin). lia.
Qed.

Lemma increasingWithin_NoDup lo hi l :
  increasingWithin lo hi l -> NoDup (map id l).
Proof.
  revert lo. induction l as [|v l IH]; intros lo H; cbn in *; [constructor|].
  destruct H as (H1 & H2 & H3). constructor; [|exact (IH _ H3)].
  intros Hin. apply in_map_iff in Hin as (u & Hu & Hin).
  pose proof (increasingWithin_bounds _ _ _ _ H3 Hin). lia.
Qed.

Lemma increasingWithin_length lo hi l :
  lo <= hi -> increasingWithin lo hi l -> Z.of_nat (List.length l) <= hi - lo.
Proof.
  revert lo. induction l as [|v l IH]; intros lo Hle H; cbn [List.length increasingWithin] in *;
    [lia|].
  destruct H as (H1 & H2 & H3). specialize (IH (id v) H2 H3). lia.
Qed.

Lemma trackerStep_invariant ev t :
  0 <= updateIdRef t /\ increasingWithin 0 (updateIdRef t) (artifactUpdates t) ->
  0 <= updateIdRef (trackerStep ev t)
  /\ increasingWithin 0 (updateIdRef (trackerStep ev t))
       (artifactUpdates (trackerStep ev t)).
Proof.
  intros [H0 H]. destruct ev as [artifact currentPhase|]; cbn [trackerStep].
  - unfold detectUpdate. destruct (previousArtifactRef t) as [previous|].
    + destruct (Js.truthy artifact && negb (Js.eqb artifact previous)); cbn.
      * split; [lia | apply increasingWithin_snoc; assumption].
      * auto.
    + cbn. auto.
  - cbn. auto.
Qed.

Lemma trackerRun_invariant evs : forall t,
  0 <= updateIdRef t /\ increasingWithin 0 (updateIdRef t) (artifactUpdates t) ->
  0 <= updateIdRef (trackerRun evs t)
  /\ increasingWithin 0 (updateIdRef (trackerRun evs t))
       (artifactUpdates (trackerRun evs t)).
Proof.
  induction evs as [|ev evs IH]; intros t H; [exact H|].
  apply (IH (trackerStep ev t)), trackerStep_invariant, H.
Qed.

(** X13.  Whatever sequence of renders and resets the tracker goes
    through, the identifiers of the recorded updates grow strictly along
    the list, lie between 1 and the counter, and are therefore pairwise
    distinct; a reset empties the list but never rewinds the counter, so an
    identifier is never handed out twice. *)
Theorem update_ids_strictly_increase evs :
  let t := trackerRun evs initialTracker in
  increasingWithin 0 (updateIdRef t) (artifactUpdates t)
  /\ NoDup (map id (artifactUpdates t))
  /\ (forall u, In u (artifactUpdates t) -> 1 <= id u <= updateIdRef t)
  /\ Z.of_nat (List.length (artifactUpdates t)) <= updateIdRef t
  /\ (forall ev, updateIdRef t <= updateIdRef (trackerStep ev t)).
Proof.
  intros t.
  destruct (trackerRun_invariant evs initialTracker) as [H0 H];
    [cbn; auto with zarith|].
  fold t in H0, H.
  split; [exact H|]. split; [exact (increasingWithin_NoDup _ _ _ H)|].
  split; [intros u Hu; pose proof (increasingWithin_bounds _ _ _ _ H Hu); lia|].
  split; [pose proof (increasingWithin_length _ _ _ H0 H); lia|].
  intros [artifact currentPhase|]; cbn [trackerStep]; [|cbn; lia].
  unfold detectUpdate. destruct (previousArtifactRef t) as [previous|]; [|cbn; lia].
  destruct (Js.truthy artifact && negb (Js.eqb artifact previous)); cbn; lia.
Qed.

(** X14.  Detection is idempotent in the artifact: once an artifact has
    been seen, seeing it again, even under another phase, records nothing.
    A change of phase alone never produces a notification. *)
Theorem detectUpdate_same_artifact_is_noop artifact phase1 phase2 t :
  detectUpdate artifact phase2 (detectUpdate artifact phase1 t)
  = detectUpdate artifact phase1 t.
Proof.
  destruct t as [updates [previous|] counter]; unfold detectUpdate;
    cbn [previousArtifactRef artifactUpdates updateIdRef].
  - destruct (Js.truthy artifact && negb (Js.eqb artifact previous)) eqn:Ec;
      cbn [previousArtifactRef artifactUpdates updateIdRef].
    + rewrite JsFacts.eqb_refl, andb_false_r. reflexivity.
    + rewrite Ec. reflexivity.
  - rewrite JsFacts.eqb_refl, andb_false_r. reflexivity.
Qed.

(** X15.  Whether the first artifact a page shows is announced depends on
    what the first render saw.  Right after mount or after a reset, a
    render that already carries the artifact records it silently; but if
    that first render carries the empty string (data not there yet), the
    render that brings a non-empty artifact appends one notification. *)
Theorem first_artifact_notification artifact currentPhase t :
  artifact <> [] ->
  artifactUpdates (detectUpdate artifact currentPhase (onResetSuccess t)) = []
  /\ artifactUpdates (detectUpdate artifact currentPhase initialTracker) = []
  /\ artifactUpdates
       (trackerRun [Rendered [] currentPhase; Rendered artifact currentPhase]
          (onResetSuccess t))
     = [{| id := updateIdRef t + 1; phase := currentPhase |}]
  /\ artifactUpdates
       (trackerRun [Rendered [] currentPhase; Rendered artifact currentPhase]
          initialTracker)
     = [{| id := 1; phase := currentPhase |}].
Proof.
  intros Hne. destruct artifact as [|c artifact]; [congruence|].
  repeat split.
Qed.

Lemma first_artifact_notification_witness :
  artifactUpdates
    (trackerRun [Rendered [] (Js.lit "research_definition");
                 Rendered (Js.lit "# Draft") (Js.lit "research_definition")]
       initialTracker)
  = [{| id := 1; phase := Js.lit "research_definition" |}].
Proof.
  apply (first_artifact_notification (Js.lit "# Draft")
           (Js.lit "research_definition") initialTracker).
  intros E. vm_compute in E. discriminate E.
Defined.

Lemma mapi_from_notifications messages updates l : forall start,
  (start + List.length l = List.length messages)%nat ->
  mapi_from (notificationAt messages updates) start l
  = repeat None (List.length l - 1)
    ++ match Js.lastOf l with
       | Some m => [notificationAt messages updates (List.length messages - 1) m]
       | None => []
       end.
Proof.
  induction l as [|x l IH]; intros start Hlen; [reflexivity|].
  destruct l as [|y l].
  - cbn in *. replace (List.length messages - 1)%nat with start by lia.
    reflexivity.
  - change (mapi_from (notificationAt messages updates) start (x :: y :: l))
      with (notificationAt messages updates start x
            :: mapi_from (notificationAt messages updates) (S start) (y :: l)).
    rewrite (IH (S start)) by (cbn in *; lia).
    assert (E : notificationAt messages updates start x = None).
    { unfold notificationAt.
      replace (Z.of_nat start =? Z.of_nat (List.length messages) - 1) with false;
        [reflexivity|].
      symmetry. apply Z.eqb_neq. cbn in Hlen. lia. }
    rewrite E.
    change (Js.lastOf (x :: y :: l)) with (Js.lastOf (y :: l)).
    cbn [List.length]. replace (S (S (List.length l)) - 1)%nat
      with (S (S (List.length l) - 1)) by lia.
    reflexivity.
Qed.

Lemma rendered_repeat_None n rest :
  rendered (repeat None n ++ rest) = rendered rest.
Proof. induction n as [|n IH]; [reflexivity | exact IH]. Qed.

(** X16.  At most one update notification is rendered in the message
    list, and it is rendered exactly when the list is non-empty, its last
    message is not the user's and at least one update has been recorded;
    it then sits under the last message and shows the phase of the most
    recent update. *)
Theorem at_most_one_notification messages updates :
  (rendered (notifications messages updates) <= 1)%nat
  /\ (rendered (notifications messages updates) = 1%nat <->
      exists lastMsg,
        Js.lastOf messages = Some lastMsg
        /\ agent lastMsg <> user
        /\ updates <> [])
  /\ (forall lastMsg latest,
        Js.lastOf messages = Some lastMsg ->
        agent lastMsg <> user ->
        Js.lastOf updates = Some latest ->
        notifications messages updates
        = repeat None (List.length messages - 1) ++ [Some (phase latest)]).
Proof.
  unfold notifications, mapi.
  rewrite (mapi_from_notifications messages updates messages 0 eq_refl).
  destruct (Js.lastOf messages) as [lastMsg|] eqn:El.
  - assert (Hn : messages <> []) by (intros ->; discriminate).
    assert (Hidx : (Z.of_nat (List.length messages - 1)
                    =? Z.of_nat (List.length messages) - 1) = true).
    { apply Z.eqb_eq. destruct messages; [congruence | cbn [List.length]; lia]. }
    rewrite rendered_repeat_None. unfold notificationAt. rewrite Hidx.
    cbn [andb].
    destruct (Js.eqb (agent lastMsg) user) eqn:Ea; cbn [negb andb].
    + apply JsFacts.eqb_eq in Ea. split; [cbn; lia|]. split.
      * split; [discriminate|]. intros (m & Hm & Hag & _). congruence.
      * intros m latest Hm Hag. congruence.
    + apply JsFacts.eqb_neq in Ea.
      destruct updates as [|u updates'].
      * cbn. split; [lia|]. split.
        -- split; [discriminate|]. intros (m & _ & _ & H). congruence.
        -- intros m latest _ _ H. discriminate H.
      * assert (Hpos : (0 <? Z.of_nat (List.length (u :: updates'))) = true)
          by (apply Z.ltb_lt; cbn [List.length]; lia).
        rewrite Hpos.
        destruct (Js.lastOf (u :: updates')) as [latest|] eqn:Eu;
          [|apply JsFacts.lastOf_None in Eu; discriminate].
        cbn [option_map]. split; [cbn; lia|]. split.
        -- split; [intros _|reflexivity].
           exists lastMsg. repeat split; [exact Ea | discriminate].
        -- intros m latest' _ _ H. injection H as <-. reflexivity.
  - apply JsFacts.lastOf_None in El. subst messages. cbn.
    split; [lia|]. split.
    + split; [discriminate|]. intros (m & Hm & _). discriminate.
    + intros m latest Hm. discriminate.
Qed.

End ArtifactFacts.

(* ====================================================================== *)
(** ** Locks *)
(* ====================================================================== *)

(** X17.  In the sidebar tree a click on a process navigates to
    [/project/<id>/<process>] unless the process is locked; "research" and
    "literature-org" are never locked, "literature-search" and "paper" are
    locked exactly until both phases are complete, and the project's status
    reads "all unlocked" exactly when every process navigates. *)
Theorem sidebar_navigates_unless_locked project process :
  In process (Sidebar.processes project) ->
  (Sidebar.handleClick (Sidebar.project_id project) process = None <->
   (Sidebar.id process = Sidebar.literature_search
    \/ Sidebar.id process = Sidebar.paper)
   /\ (Sidebar.research_definition_complete project
       && Sidebar.experiment_design_complete project) = false)
  /\ (forall target,
        Sidebar.handleClick (Sidebar.project_id project) process = Some target ->
        target = Js.lit "/project/" ++ Sidebar.project_id project ++ Js.lit "/"
                 ++ Sidebar.processPath (Sidebar.id process))
  /\ (Sidebar.getStatusIndicator project = Sidebar.AllUnlocked <->
      forall q, In q (Sidebar.processes project) ->
                Sidebar.handleClick (Sidebar.project_id project) q <> None).
Proof.
  intros Hin. unfold Sidebar.handleClick, Sidebar.getStatusIndicator.
  destruct project as [pid rd ed]. cbn [Sidebar.project_id
    Sidebar.research_definition_complete Sidebar.experiment_design_complete] in *.
  split; [|split].
  - cbn in Hin.
    destruct Hin as [<- | [<- | [<- | [<- | []]]]]; cbn;
      destruct rd, ed; cbn; split;
      try discriminate; try reflexivity;
      try (intros [[H | H] _]; discriminate H);
      try (intros [_ H]; discriminate H);
      try (intros _; split; [auto | reflexivity]).
  - intros target H. destruct (Sidebar.locked process); [discriminate|].
    injection H as <-. reflexivity.
  - destruct rd, ed; cbn; split; try discriminate; try reflexivity.
    + intros _ q [<- | [<- | [<- | [<- | []]]]]; cbn; discriminate.
    + intros H. exfalso. apply (H {| Sidebar.id := Sidebar.paper; Sidebar.locked := true |});
        [cbn; auto | reflexivity].
    + intros H. exfalso. apply (H {| Sidebar.id := Sidebar.paper; Sidebar.locked := true |});
        [cbn; auto | reflexivity].
    + intros H. exfalso. apply (H {| Sidebar.id := Sidebar.paper; Sidebar.locked := true |});
        [cbn; auto | reflexivity].
Qed.

Lemma sidebar_navigates_unless_locked_witness :
  let project := Sidebar.mkProject (Js.lit "p1") true false in
  let process := Sidebar.mkProcess Sidebar.paper true in
  (Sidebar.handleClick (Js.lit "p1") process = None <->
   (Sidebar.paper = Sidebar.literature_search \/ Sidebar.paper = Sidebar.paper)
   /\ (true && false) = false)
  /\ (forall target,
        Sidebar.handleClick (Js.lit "p1") process = Some target ->
        target = Js.lit "/project/" ++ Js.lit "p1" ++ Js.lit "/"
                 ++ Sidebar.processPath Sidebar.paper)
  /\ (Sidebar.getStatusIndicator project = Sidebar.AllUnlocked <->
      forall q, In q (Sidebar.processes project) ->
                Sidebar.handleClick (Js.lit "p1") q <> None).
Proof.
  intros project process.
  apply (sidebar_navigates_unless_locked project process).
  simpl. auto.
Defined.

(** X18.  The sidebar and the pages agree on locks when they see the same
    completion flags: the literature-search entry is locked exactly when its
    page is; whenever the paper entry is unlocked the paper page is unlocked
    too, and the paper page is unlocked behind a locked entry exactly when
    the experiment design is complete but the research definition is not.
    While the status is still loading both pages are locked. *)
Theorem sidebar_and_page_locks project status :
  Sidebar.research_definition_complete project
  = PageLock.research_definition_complete status ->
  Sidebar.experiment_design_complete project
  = PageLock.experiment_design_complete status ->
  (forall process,
     In process (Sidebar.processes project) ->
     (Sidebar.id process = Sidebar.literature_search ->
      Sidebar.locked process = PageLock.searchLocked (Some status))
     /\ (Sidebar.id process = Sidebar.paper ->
         Sidebar.locked process = false ->
         PageLock.paperLocked (Some status) = false)
     /\ (Sidebar.id process = Sidebar.paper ->
         (Sidebar.locked process = true
          /\ PageLock.paperLocked (Some status) = false
          <-> PageLock.experiment_design_complete status = true
              /\ PageLock.research_definition_complete status = false)))
  /\ PageLock.paperLocked None = true
  /\ PageLock.searchLocked None = true.
Proof.
  intros Hrd Hed.
  destruct project as [pid rd ed], status as [rd' ed']. cbn in Hrd, Hed. subst.
  split; [|split; reflexivity].
  intros process [<- | [<- | [<- | [<- | []]]]]; cbn;
    (split; [|split]); try discriminate; try reflexivity;
    unfold PageLock.paperLocked; cbn; destruct rd', ed'; cbn;
    try (intros; reflexivity); try discriminate;
    intros _; split; intros [H1 H2]; try discriminate; auto.
Qed.

Lemma sidebar_and_page_locks_witness :
  let project := Sidebar.mkProject (Js.lit "p1") false true in
  let status := PageLock.mkStatus false true in
  (forall process,
     In process (Sidebar.processes project) ->
     (Sidebar.id process = Sidebar.literature_search ->
      Sidebar.locked process = PageLock.searchLocked (Some status))
     /\ (Sidebar.id process = Sidebar.paper ->
         Sidebar.locked process = false ->
         PageLock.paperLocked (Some status) = false)
     /\ (Sidebar.id process = Sidebar.paper ->
         (Sidebar.locked process = true
          /\ PageLock.paperLocked (Some status) = false
          <-> PageLock.experiment_design_complete status = true
              /\ PageLock.research_definition_complete status = false)))
  /\ PageLock.paperLocked None = true
  /\ PageLock.searchLocked None = true.
Proof.
  intros project status.
  apply (sidebar_and_page_locks project status); reflexivity.
Defined.

(** X19.  While one of its two queries is loading, the paper page renders
    its spinner and nothing else.  Otherwise a locked page is inert: the
    overlay is shown, the log query is disabled, and neither the start
    button, the messages nor the input form are rendered; an unlocked page
    polls its log and shows the start button without the input form when
    the log is empty, the messages with the input form when it is not. *)
Theorem locked_paper_page_is_inert loadingStatus loadingProcess projectStatus log :
  (loadingStatus = true \/ loadingProcess = true ->
   PageLock.paperPage loadingStatus loadingProcess projectStatus log
   = PageLock.Spinner)
  /\ (loadingStatus = false /\ loadingProcess = false ->
      (PageLock.paperLocked projectStatus = true ->
       PageLock.paperQueryEnabled projectStatus = false
       /\ PageLock.paperPage loadingStatus loadingProcess projectStatus log
          = PageLock.Content true PageLock.ShowNothing false)
      /\ (PageLock.paperLocked projectStatus = false ->
          PageLock.paperQueryEnabled projectStatus = true
          /\ PageLock.paperPage loadingStatus loadingProcess projectStatus log
             = match log with
               | [] => PageLock.Content false PageLock.ShowEmptyState false
               | _ :: _ => PageLock.Content false PageLock.ShowMessages true
               end)).
Proof.
  unfold PageLock.paperPage, PageLock.paperQueryEnabled, PageLock.paperLocked.
  split.
  - intros [-> | ->]; [reflexivity | rewrite orb_true_r; reflexivity].
  - intros [-> ->]. cbn [orb].
    destruct (PageLock.flag PageLock.experiment_design_complete projectStatus);
      cbn [negb]; split; intros H; try discriminate H.
    + split; [reflexivity|]. destruct log; reflexivity.
    + split; [reflexivity|]. rewrite !andb_false_r. reflexivity.
Qed.

(* ====================================================================== *)
(** ** Persisted preferences *)
(* ====================================================================== *)

Lemma getItem_setItem_same k v ls :
  LocalStorage.getItem k (LocalStorage.setItem k v ls) = Some v.
Proof. cbn. rewrite JsFacts.eqb_refl. reflexivity. Qed.

Lemma getItem_setItem_other k k' v ls :
  k' <> k ->
  LocalStorage.getItem k (LocalStorage.setItem k' v ls) = LocalStorage.getItem k ls.
Proof. intros H. apply JsFacts.eqb_neq in H. cbn. rewrite H. reflexivity. Qed.

Lemma available_model_found m :
  In m ModelSelector.AVAILABLE_MODELS ->
  ModelSelector.id m <> []
  /\ find (fun m' => Js.eqb (ModelSelector.id m') (ModelSelector.id m))
       ModelSelector.AVAILABLE_MODELS = Some m.
Proof.
  intros [<- | [<- | [<- | [<- | []]]]]; split; try discriminate; reflexivity.
Qed.

Lemma selectAll_last picks : forall st ls m,
  Js.lastOf picks = Some m ->
  ModelSelector.selectAll picks st ls
  = ({| ModelSelector.isOpen := false;
        ModelSelector.selectedModel := ModelSelector.id m |},
     LocalStorage.setItem ModelSelector.STORAGE_KEY (ModelSelector.id m)
       (snd (ModelSelector.selectAll (removelast picks) st ls))).
Proof.
  induction picks as [|x picks IH]; intros st ls m H; [discriminate|].
  destruct picks as [|y picks].
  - injection H as <-. reflexivity.
  - change (Js.lastOf (x :: y :: picks)) with (Js.lastOf (y :: picks)) in H.
    change (removelast (x :: y :: picks)) with (x :: removelast (y :: picks)).
    cbn [ModelSelector.selectAll ModelSelector.handleSelectModel].
    apply IH. exact H.
Qed.

(** X20.  The model picked last in the dropdown is the model that is
    used: after any sequence of picks among the available models, the
    component shows the last pick, [getSelectedModel] (read when a chat
    message is sent) returns its id, and a component mounted afterwards
    starts from it. *)
Theorem last_pick_is_selected_model picks m st ls :
  (forall x, In x picks -> In x ModelSelector.AVAILABLE_MODELS) ->
  Js.lastOf picks = Some m ->
  let st' := fst (ModelSelector.selectAll picks st ls) in
  let ls' := snd (ModelSelector.selectAll picks st ls) in
  ModelSelector.getSelectedModel true ls' = ModelSelector.id m
  /\ ModelSelector.selectedModel st' = ModelSelector.id m
  /\ ModelSelector.currentModel st' = m
  /\ ModelSelector.isOpen st' = false
  /\ ModelSelector.initialState true ls' = st'.
Proof.
  intros Havail Hlast st' ls'. subst st' ls'.
  rewrite (selectAll_last picks st ls m Hlast). cbn [fst snd].
  assert (Hm : In m picks).
  { clear -Hlast. induction picks as [|x [|y picks] IH]; [discriminate | |].
    - injection Hlast as <-. left. reflexivity.
    - right. apply IH. exact Hlast. }
  destruct (available_model_found m (Havail m Hm)) as [Hne Hfind].
  assert (Hor : ModelSelector.orElse (Some (ModelSelector.id m))
                  (ModelSelector.id ModelSelector.firstModel)
                = ModelSelector.id m).
  { unfold ModelSelector.orElse. apply JsFacts.truthy_true in Hne.
    rewrite Hne. reflexivity. }
  unfold ModelSelector.getSelectedModel, ModelSelector.initialState,
    ModelSelector.currentModel.
  rewrite getItem_setItem_same, Hor.
  cbn [ModelSelector.selectedModel ModelSelector.isOpen].
  rewrite Hfind. repeat split.
Qed.

Lemma last_pick_is_selected_model_witness :
  let flash := ModelSelector.mkModel (Js.lit "gemini-2.0-flash") (Js.lit "Gemini 2.0 Flash") in
  let pro := ModelSelector.mkModel (Js.lit "gemini-2.5-pro-preview-06-05") (Js.lit "Gemini 2.5 Pro") in
  let st := ModelSelector.initialState true [] in
  let st' := fst (ModelSelector.selectAll [pro; flash] st []) in
  let ls' := snd (ModelSelector.selectAll [pro; flash] st []) in
  ModelSelector.getSelectedModel true ls' = Js.lit "gemini-2.0-flash"
  /\ ModelSelector.selectedModel st' = Js.lit "gemini-2.0-flash"
  /\ ModelSelector.currentModel st' = flash
  /\ ModelSelector.isOpen st' = false
  /\ ModelSelector.initialState true ls' = st'.
Proof.
  intros flash pro st.
  apply (last_pick_is_selected_model [pro; flash] flash st []).
  - intros x [<- | [<- | []]]; simpl; auto.
  - reflexivity.
Defined.

(** X21.  The model shown is always one of the available models, but the
    model id used for requests is not validated: with nothing stored (or
    outside a browser) both are the first model; with a stored id that no
    available model carries, the selector shows the first model while
    [getSelectedModel] still returns the stored id. *)
Theorem shown_model_is_available_but_stored_id_is_used st ls v w :
  In (ModelSelector.currentModel st) ModelSelector.AVAILABLE_MODELS
  /\ ModelSelector.getSelectedModel false ls
     = ModelSelector.id ModelSelector.firstModel
  /\ (LocalStorage.getItem ModelSelector.STORAGE_KEY ls = None ->
      ModelSelector.getSelectedModel w ls
      = ModelSelector.id ModelSelector.firstModel
      /\ ModelSelector.currentModel (ModelSelector.initialState w ls)
         = ModelSelector.firstModel)
  /\ (LocalStorage.getItem ModelSelector.STORAGE_KEY ls = Some v ->
      v <> [] ->
      (forall m, In m ModelSelector.AVAILABLE_MODELS -> ModelSelector.id m <> v) ->
      ModelSelector.getSelectedModel true ls = v
      /\ ModelSelector.currentModel (ModelSelector.initialState true ls)
         = ModelSelector.firstModel).
Proof.
  split; [|split; [reflexivity | split]].
  - unfold ModelSelector.currentModel.
    destruct (find _ ModelSelector.AVAILABLE_MODELS) as [m|] eqn:E.
    + apply find_some in E. apply E.
    + left. reflexivity.
  - intros Hnone.
    unfold ModelSelector.getSelectedModel, ModelSelector.initialState.
    rewrite Hnone. destruct w; split; reflexivity.
  - intros Hsome Hne Hstale.
    unfold ModelSelector.getSelectedModel, ModelSelector.initialState,
      ModelSelector.currentModel.
    rewrite Hsome. unfold ModelSelector.orElse.
    apply JsFacts.truthy_true in Hne. rewrite Hne.
    cbn [ModelSelector.selectedModel]. split; [reflexivity|].
    destruct (find _ ModelSelector.AVAILABLE_MODELS) as [m|] eqn:E; [|reflexivity].
    apply find_some in E as [Hin Heq]. apply JsFacts.eqb_eq in Heq.
    exfalso. exact (Hstale m Hin Heq).
Qed.

(** X22.  The sidebar's collapsed flag survives a reload: after a toggle
    the flag is flipped, a freshly mounted layout reading the storage comes
    up with the same flag, a second toggle restores the original one, and
    the toggle touches no other key of the storage (the selected model in
    particular).  With nothing stored, or anything but "true" stored, the
    layout mounts expanded. *)
Theorem sidebar_toggle_survives_reload st ls :
  let st1 := fst (SidebarLayout.toggleSidebar st ls) in
  let ls1 := snd (SidebarLayout.toggleSidebar st ls) in
  SidebarLayout.isCollapsed st1 = negb (SidebarLayout.isCollapsed st)
  /\ SidebarLayout.onMount ls1 SidebarLayout.initialState
     = {| SidebarLayout.isCollapsed := SidebarLayout.isCollapsed st1;
          SidebarLayout.isHydrated := true |}
  /\ SidebarLayout.isCollapsed (fst (SidebarLayout.toggleSidebar st1 ls1))
     = SidebarLayout.isCollapsed st
  /\ (forall k, k <> SidebarLayout.SIDEBAR_COLLAPSED_KEY ->
        LocalStorage.getItem k ls1 = LocalStorage.getItem k ls)
  /\ (forall w, ModelSelector.getSelectedModel w ls1
                = ModelSelector.getSelectedModel w ls)
  /\ (LocalStorage.getItem SidebarLayout.SIDEBAR_COLLAPSED_KEY ls = None ->
      SidebarLayout.isCollapsed (SidebarLayout.onMount ls SidebarLayout.initialState)
      = false)
  /\ (forall saved,
        LocalStorage.getItem SidebarLayout.SIDEBAR_COLLAPSED_KEY ls = Some saved ->
        saved <> Js.lit "true" ->
        SidebarLayout.isCollapsed (SidebarLayout.onMount ls SidebarLayout.initialState)
        = false).
Proof.
  intros st1 ls1. subst st1 ls1. unfold SidebarLayout.toggleSidebar.
  cbn [fst snd SidebarLayout.isCollapsed].
  split; [reflexivity|]. split.
  - unfold SidebarLayout.onMount. rewrite getItem_setItem_same.
    destruct (SidebarLayout.isCollapsed st); reflexivity.
  - split; [apply negb_involutive|]. split.
    + intros k Hk. apply getItem_setItem_other. congruence.
    + split.
      * intros w. unfold ModelSelector.getSelectedModel.
        rewrite getItem_setItem_other; [reflexivity | discriminate].
      * split.
        -- intros H. unfold SidebarLayout.onMount. rewrite H. reflexivity.
        -- intros saved H Hne. unfold SidebarLayout.onMount. rewrite H. cbn.
           apply JsFacts.eqb_neq. exact Hne.
Qed.

(* ====================================================================== *)
(** ** Small forms *)
(* ====================================================================== *)

(** X23.  The rename form confirms only a real change: the confirmed name
    is the trimmed input, non-empty, without surrounding white space and
    different from the current name; a blank input, or one whose trim is
    the current name, cancels instead. *)
Theorem rename_confirms_only_real_changes currentTopic newTopic :
  (forall x,
     RenameModal.handleSubmit currentTopic newTopic = RenameModal.Confirmed x ->
     x = Js.trim newTopic /\ x <> [] /\ trimmed x /\ x <> currentTopic)
  /\ (forallb Js.isWhiteSpace newTopic = true ->
      RenameModal.handleSubmit currentTopic newTopic = RenameModal.Cancelled)
  /\ (Js.trim newTopic = currentTopic ->
      RenameModal.handleSubmit currentTopic newTopic = RenameModal.Cancelled)
  /\ (Js.trim newTopic <> [] -> Js.trim newTopic <> currentTopic ->
      RenameModal.handleSubmit currentTopic newTopic
      = RenameModal.Confirmed (Js.trim newTopic)).
Proof.
  unfold RenameModal.handleSubmit. split; [|split; [|split]].
  - intros x H.
    destruct (Js.truthy (Js.trim newTopic)) eqn:Et; [|discriminate].
    destruct (Js.eqb (Js.trim newTopic) currentTopic) eqn:Ee; [discriminate|].
    injection H as <-. apply JsFacts.truthy_true in Et.
    apply JsFacts.eqb_neq in Ee.
    split; [reflexivity | split; [exact Et | split; [apply JsFacts.trim_idem | exact Ee]]].
  - intros H. apply JsFacts.trim_nil_iff in H. rewrite H. reflexivity.
  - intros H. rewrite H, JsFacts.eqb_refl, andb_false_r. reflexivity.
  - intros H1 H2. apply JsFacts.truthy_true in H1. apply JsFacts.eqb_neq in H2.
    rewrite H1, H2. reflexivity.
Qed.

Lemma includes_In a x : JsArray.includes a x = true <-> In x a.
Proof.
  unfold JsArray.includes. rewrite existsb_exists. split.
  - intros (y & Hy & E). apply JsFacts.eqb_eq in E. congruence.
  - intros H. exists x. split; [exact H | apply JsFacts.eqb_refl].
Qed.

Lemma includes_false a x : JsArray.includes a x = false <-> ~ In x a.
Proof.
  rewrite <- includes_In. destruct (JsArray.includes a x); split; congruence.
Qed.

Lemma filter_out_absent (x : jsstring) a :
  ~ In x a -> filter (fun s => negb (Js.eqb s x)) a = a.
Proof.
  induction a as [|y a IH]; intros H; cbn; [reflexivity|].
  assert (Hy : Js.eqb y x = false) by (apply JsFacts.eqb_neq; intros ->; apply H; left; reflexivity).
  rewrite Hy. cbn. rewrite IH; [reflexivity|]. intros Hin. apply H. right. exact Hin.
Qed.

Lemma NoDup_snoc (x : jsstring) a : NoDup a -> ~ In x a -> NoDup (a ++ [x]).
Proof.
  induction a as [|y a IH]; intros Hnd Hx; cbn.
  - constructor; [intros [] | constructor].
  - inversion Hnd as [|? ? Hy Ha]; subst. constructor.
    + rewrite in_app_iff. intros [H | [H | []]]; [exact (Hy H)|].
      apply Hx. left. symmetry. exact H.
    + apply IH; [exact Ha|]. intros H. apply Hx. right. exact H.
Qed.

(** X24.  Toggling a search source flips whether it is selected and
    leaves every other source as it was; a selection without repeats stays
    without repeats, and switching a source on and off again restores the
    selection exactly. *)
Theorem toggleSource_flips_one_source source prev :
  JsArray.includes (LiteratureSearch.toggleSource source prev) source
  = negb (JsArray.includes prev source)
  /\ (forall other, other <> source ->
        JsArray.includes (LiteratureSearch.toggleSource source prev) other
        = JsArray.includes prev other)
  /\ (NoDup prev -> NoDup (LiteratureSearch.toggleSource source prev))
  /\ (JsArray.includes prev source = false ->
      LiteratureSearch.toggleSource source
        (LiteratureSearch.toggleSource source prev) = prev).
Proof.
  unfold LiteratureSearch.toggleSource.
  destruct (JsArray.includes prev source) eqn:E.
  - split; [|split; [|split]].
    + cbn. apply includes_false. rewrite filter_In.
      intros [_ H]. rewrite JsFacts.eqb_refl in H. discriminate.
    + intros other Hne.
      destruct (JsArray.includes prev other) eqn:Eo.
      * apply includes_In. apply includes_In in Eo. apply filter_In.
        split; [exact Eo|]. apply negb_true_iff, JsFacts.eqb_neq. exact Hne.
      * apply includes_false. apply includes_false in Eo.
        rewrite filter_In. intros [H _]. exact (Eo H).
    + intros H. apply NoDup_filter. exact H.
    + discriminate.
  - apply includes_false in E. split; [|split; [|split]].
    + cbn. apply includes_In. apply in_app_iff. right. left. reflexivity.
    + intros other Hne.
      destruct (JsArray.includes prev other) eqn:Eo.
      * apply includes_In. apply includes_In in Eo. apply in_app_iff. auto.
      * apply includes_false. apply includes_false in Eo.
        rewrite in_app_iff. intros [H | [H | []]]; [exact (Eo H) | congruence].
    + intros H. apply NoDup_snoc; assumption.
    + intros _.
      assert (Hin : JsArray.includes (prev ++ [source]) source = true)
        by (apply includes_In, in_app_iff; right; left; reflexivity).
      rewrite Hin, filter_app, (filter_out_absent source prev E). cbn.
      rewrite JsFacts.eqb_refl. cbn. apply app_nil_r.
Qed.

Section AuthorsFacts.
Import JsArray.

Lemma split_nonempty sep s : split sep s <> [].
Proof.
  destruct s as [|c s]; cbn; [discriminate|].
  destruct (N.eqb c sep); [discriminate|].
  destruct (split sep s); discriminate.
Qed.

Lemma split_pieces_free sep s piece :
  In piece (split sep s) -> ~ In sep piece.
Proof.
  revert piece. induction s as [|c s IH]; intros piece; cbn.
  - intros [<- | []] [].
  - destruct (N.eqb c sep) eqn:Ec.
    + intros [<- | H]; [intros [] | exact (IH piece H)].
    + apply N.eqb_neq in Ec.
      destruct (split sep s) as [|p rest] eqn:Es.
      * intros [<- | []] [H | []]. congruence.
      * intros [<- | H].
        -- intros [H | H]; [congruence|]. apply (IH p); [left; reflexivity | exact H].
        -- apply IH. right. exact H.
Qed.

Lemma split_free sep s : ~ In sep s -> split sep s = [s].
Proof.
  induction s as [|c s IH]; intros H; cbn; [reflexivity|].
  assert (Ec : N.eqb c sep = false)
    by (apply N.eqb_neq; intros ->; apply H; left; reflexivity).
  rewrite Ec, IH; [reflexivity|]. intros Hin. apply H. right. exact Hin.
Qed.

Lemma split_app sep x rest :
  ~ In sep x -> split sep (x ++ sep :: rest) = x :: split sep rest.
Proof.
  induction x as [|c x IH]; intros H; cbn.
  - rewrite N.eqb_refl. reflexivity.
  - assert (Ec : N.eqb c sep = false)
      by (apply N.eqb_neq; intros ->; apply H; left; reflexivity).
    rewrite Ec, IH; [reflexivity|]. intros Hin. apply H. right. exact Hin.
Qed.

Lemma In_trim c s : In c (Js.trim s) -> In c s.
Proof.
  unfold Js.trim, Js.trimStart. intros H.
  destruct (JsFacts.trimEnd_prefix (Js.dropWhile Js.isWhiteSpace s)) as (suf & E).
  destruct (JsFacts.dropWhile_split Js.isWhiteSpace s) as (pre & Es & _).
  rewrite Es, E. apply in_app_iff. right. apply in_app_iff. left. exact H.
Qed.

Lemma trim_cons_space c s :
  Js.isWhiteSpace c = true -> Js.trim (c :: s) = Js.trim s.
Proof. intros H. unfold Js.trim, Js.trimStart. cbn. rewrite H. reflexivity. Qed.

(** X25.  Every author parsed from the comma-separated field is a
    non-empty name without surrounding white space and without a comma; a
    blank field yields no author at all. *)
Theorem parseAuthors_yields_clean_names authors :
  (forall a, In a (LiteratureOrg.parseAuthors authors) ->
     a <> [] /\ trimmed a /\ ~ In 44%N a)
  /\ (forallb Js.isWhiteSpace authors = true ->
      LiteratureOrg.parseAuthors authors = []).
Proof.
  unfold LiteratureOrg.parseAuthors. split.
  - intros a H. apply filter_In in H as [H Ht].
    apply in_map_iff in H as (piece & <- & Hp).
    split; [apply JsFacts.truthy_true, Ht|].
    split; [apply JsFacts.trim_idem|].
    intros Hc. apply In_trim in Hc. exact (split_pieces_free _ _ _ Hp Hc).
  - intros H. rewrite split_free.
    + cbn. apply JsFacts.trim_nil_iff in H. rewrite H. reflexivity.
    + intros Hin. rewrite forallb_forall in H. specialize (H _ Hin).
      discriminate H.
Qed.

Lemma parseAuthors_cons x rest :
  x <> [] -> trimmed x -> ~ In 44%N x ->
  LiteratureOrg.parseAuthors (x ++ Js.lit ", " ++ rest)
  = x :: LiteratureOrg.parseAuthors rest.
Proof.
  intros Hne Ht Hc. unfold LiteratureOrg.parseAuthors.
  change (x ++ Js.lit ", " ++ rest) with (x ++ 44%N :: 32%N :: rest).
  rewrite (split_app 44%N x (32%N :: rest) Hc).
  cbn [split map]. change (N.eqb 32 44) with false. cbv iota.
  destruct (split 44%N rest) as [|piece others] eqn:Es;
    [exfalso; exact (split_nonempty _ _ Es)|].
  cbn [map filter]. rewrite Ht.
  apply JsFacts.truthy_true in Hne. rewrite Hne.
  rewrite (trim_cons_space 32%N piece eq_refl). reflexivity.
Qed.

Lemma In_firstn {A} (a : A) n : forall l, In a (firstn n l) -> In a l.
Proof.
  induction n as [|n IH]; intros [|x l] H; cbn in *; try contradiction.
  destruct H as [H | H]; [left; exact H | right; exact (IH l H)].
Qed.

Lemma parseAuthors_join names :
  (forall a, In a names -> a <> [] /\ trimmed a /\ ~ In 44%N a) ->
  LiteratureOrg.parseAuthors (join (Js.lit ", ") names) = names.
Proof.
  induction names as [|x l IH]; intros H; [reflexivity|].
  destruct (H x (or_introl eq_refl)) as (Hne & Ht & Hc).
  destruct l as [|y l].
  - cbn [join]. unfold LiteratureOrg.parseAuthors.
    rewrite (split_free _ _ Hc). cbn. rewrite Ht.
    apply JsFacts.truthy_true in Hne. rewrite Hne. reflexivity.
  - change (join (Js.lit ", ") (x :: y :: l))
      with (x ++ Js.lit ", " ++ join (Js.lit ", ") (y :: l)).
    rewrite (parseAuthors_cons x _ Hne Ht Hc). f_equal.
    apply IH. intros a Ha. apply H. right. exact Ha.
Qed.

(** A string whose two ends are not white space is its own trim. *)
Lemma trimmed_ends s :
  Js.headRejected Js.isWhiteSpace s ->
  Js.headRejected Js.isWhiteSpace (rev s) ->
  trimmed s.
Proof.
  intros H1 H2. unfold trimmed, Js.trim, Js.trimStart, Js.trimEnd.
  rewrite (JsFacts.dropWhile_fixed _ _ H1), (JsFacts.dropWhile_fixed _ _ H2).
  apply rev_involutive.
Qed.

(** A clean name followed by an ellipsis is a clean name. *)
Lemma clean_ellipsis c :
  c <> [] /\ trimmed c /\ ~ In 44%N c ->
  c ++ Js.lit "..." <> [] /\ trimmed (c ++ Js.lit "...")
  /\ ~ In 44%N (c ++ Js.lit "...").
Proof.
  intros (Hne & Ht & Hc). split; [|split].
  - destruct c; [congruence | discriminate].
  - apply trimmed_ends.
    + assert (Hh : Js.headRejected Js.isWhiteSpace c).
      { rewrite <- Ht. unfold Js.trim.
        rewrite <- JsFacts.trimStart_trimEnd by apply JsFacts.dropWhile_head.
        apply JsFacts.dropWhile_head. }
      destruct c; [congruence | exact Hh].
    + rewrite rev_app_distr. reflexivity.
  - rewrite in_app_iff. intros [H | H]; [exact (Hc H)|].
    vm_compute in H. intuition discriminate.
Qed.

(** X26.  How the authors line of a search result reads when typed into
    the authors field of the add-paper form, for names that are non-empty,
    trimmed and free of commas.  Joining names with ", " and parsing the
    result gives the names back.  The line of a result with at most three
    authors parses to its authors.  The line of a result with more than
    three parses to three names of which the third has the line's ellipsis
    glued on. *)
Theorem parseAuthors_join_round_trip names :
  (forall a, In a names -> a <> [] /\ trimmed a /\ ~ In 44%N a) ->
  LiteratureOrg.parseAuthors (join (Js.lit ", ") names) = names
  /\ ((List.length names <= 3)%nat ->
      LiteratureOrg.parseAuthors (LiteratureSearch.authorsLine names) = names)
  /\ (forall a b c d rest,
        names = a :: b :: c :: d :: rest ->
        LiteratureOrg.parseAuthors (LiteratureSearch.authorsLine names)
        = [a; b; c ++ Js.lit "..."]).
Proof.
  intros H. split; [exact (parseAuthors_join names H)|]. split.
  - intros Hlen. unfold LiteratureSearch.authorsLine.
    match goal with |- context [if ?b then _ else _] => destruct b eqn:E end;
      [apply Z.ltb_lt in E; unfold Js.jsstring in *; lia|].
    rewrite app_nil_r, firstn_all2 by (unfold Js.jsstring in *; lia).
    exact (parseAuthors_join names H).
  - intros a b c d rest ->. unfold LiteratureSearch.authorsLine.
    match goal with |- context [if ?b then _ else _] => destruct b eqn:E end;
      [|apply Z.ltb_ge in E; cbn [List.length] in E; lia].
    change (join (Js.lit ", ") (firstn 3 (a :: b :: c :: d :: rest)) ++ Js.lit "...")
      with ((a ++ Js.lit ", " ++ b ++ Js.lit ", " ++ c) ++ Js.lit "...").
    replace ((a ++ Js.lit ", " ++ b ++ Js.lit ", " ++ c) ++ Js.lit "...")
      with (join (Js.lit ", ") [a; b; c ++ Js.lit "..."])
      by (cbn [join]; rewrite <- !app_assoc; reflexivity).
    apply parseAuthors_join.
    intros x [<- | [<- | [<- | []]]].
    + apply H. left. reflexivity.
    + apply H. right. left. reflexivity.
    + apply clean_ellipsis, H. right. right. left. reflexivity.
Qed.

End AuthorsFacts.

Lemma parseAuthors_join_round_trip_witness :
  let names := [Js.lit "Ada Lovelace"; Js.lit "A. Turing";
                Js.lit "G. Hopper"; Js.lit "D. Knuth"] in
  LiteratureSearch.authorsLine names
  = Js.lit "Ada Lovelace, A. Turing, G. Hopper..."
  /\ LiteratureOrg.parseAuthors (LiteratureSearch.authorsLine names)
     = [Js.lit "Ada Lovelace"; Js.lit "A. Turing"; Js.lit "G. Hopper..."]
  /\ LiteratureOrg.parseAuthors (LiteratureSearch.authorsLine (firstn 3 names))
     = firstn 3 names
  /\ LiteratureOrg.parseAuthors (JsArray.join (Js.lit ", ") names) = names.
Proof.
  intros names.
  assert (Hclean : forall a, In a names ->
                     a <> [] /\ trimmed a /\ ~ In 44%N a).
  { intros a [<- | [<- | [<- | [<- | []]]]];
      (split; [discriminate | split; [reflexivity|]]);
      intros H; vm_compute in H; intuition discriminate. }
  assert (Hclean3 : forall a, In a (firstn 3 names) ->
                      a <> [] /\ trimmed a /\ ~ In 44%N a).
  { intros a Ha. apply Hclean. exact (In_firstn a 3 names Ha). }
  split; [reflexivity|]. split; [|split].
  - exact (proj2 (proj2 (parseAuthors_join_round_trip names Hclean))
             _ _ _ _ _ eq_refl).
  - apply (proj1 (proj2 (parseAuthors_join_round_trip (firstn 3 names) Hclean3))).
    cbn. lia.
  - exact (proj1 (parseAuthors_join_round_trip names Hclean)).
Defined.

Example parseAuthors_samples :
  LiteratureOrg.parseAuthors (Js.lit " Ada Lovelace ,, A. Turing,  ")
  = [Js.lit "Ada Lovelace"; Js.lit "A. Turing"]
  /\ LiteratureOrg.parseAuthors [] = []
  /\ JsArray.split 44%N (Js.lit "a,") = [Js.lit "a"; []].
Proof. repeat split. Qed.
